(** * Block and transaction validation (validate.go, package btcchain)

    A shallow embedding of the validation rules of [validate.go] and the
    properties of its natural-language specification.

    Conventions of the embedding.
    - Go's [int64] is a [Z] reduced by [wrap64] after every addition and
      subtraction; Go's [int] is taken to be 64 bits wide ([wrapInt]).
      [uint32] is an [N] (a length converted with [uint32(...)] is reduced
      modulo 2^32).
    - A [btcwire.ShaHash] (32 bytes) is the 256-bit number it denotes.
    - An instant ([time.Time]) is a number of seconds: the wire format carries
      timestamps with a precision of one second.
    - A Go function returning [(v, error)] returns a [result]; a run-time
      panic (nil dereference, index out of range) is the outcome [Panic].
    - The input store [map[btcwire.ShaHash]*txData] is a [gmap]; every key
      owns its [txData], so that writing [originTx.spent[i] = true] through
      the pointer is an update of the map at that key.
    - Functions of other packages (btcwire, btcscript, btcutil, btcdb) and
      functions of this package that live in other files are fields of the
      record [Env]. *)

From Stdlib Require Import ZArith NArith Lia.
From Stdlib.Strings Require Import Byte.
From stdpp Require Import base option list gmap.

Local Open Scope Z_scope.

(** ** Machine integers *)

Definition wrap64 (z : Z) : Z := (z + 2 ^ 63) mod 2 ^ 64 - 2 ^ 63.

(** Go's [int] on a 64-bit platform. *)
Definition wrapInt (z : Z) : Z := wrap64 z.

(** [uint(x)] for a 64-bit [x]. *)
Definition to_uint (z : Z) : Z := z mod 2 ^ 64.

(** [uint32(len(l))] *)
Definition uint32_len {A} (l : list A) : N := (N.of_nat (length l) mod 2 ^ 32)%N.

Definition MaxUint32 : N := 4294967295%N.

(** ** Outcomes *)

Abbreviation ShaHash := N.

(** The consensus rules a [RuleError] can report, one constructor per
    message of the source, with the quantities the message prints. *)
Inductive rule : Type :=
  | NoInputs
  | NoOutputs
  | NegativeOutput (satoshi : Z)
  | OutputTooLarge (satoshi : Z)
  | TotalNegative (totalSatoshi : Z)
  | TotalTooLarge (totalSatoshi : Z)
  | DuplicateOutpoint
  | CoinbaseScriptLen (slen : nat)
  | NullPrevOut
  | TargetTooLow
  | TargetTooHigh
  | HashAboveTarget
  | TimestampTooNew
  | NoTransactions
  | FirstNotCoinbase
  | SecondCoinbase (i : nat)
  | BadMerkleRoot
  | DuplicateTransaction (hash : ShaHash)
  | TooManySigOps (totalSigOps : Z)
  | NoSerializedHeight
  | WrongSerializedHeight (serializedHeight wantHeight : Z)
  | OverwriteUnspent (hash : ShaHash) (blockHeight : Z)
  | MissingInput (txHash txInHash : ShaHash)
  | ImmatureCoinbaseSpend (txHash : ShaHash) (originHeight txHeight : Z)
  | DoubleSpend (txHash txInHash : ShaHash)
  | InputNegative (originTxSatoshi : Z)
  | InputTooLarge (originTxSatoshi : Z)
  | TotalInputTooLarge (totalSatoshiIn : Z)
  | SpendsMoreThanInputs (txHash : ShaHash) (totalSatoshiIn totalSatoshiOut : Z)
  | FeeOverflow
  | CoinbaseOverpay (totalSatoshiOut expectedSatoshiOut : Z).

(** The errors built with [fmt.Errorf]. *)
Inductive fmterr : Type :=
  | InputNotFound (txHash txInHash : ShaHash)
  | IndexOutOfBounds (originTxIndex : N) (txInHash txHash : ShaHash)
  | SigOpsOverflow (originTxIndex : N) (txInHash : ShaHash).

Inductive error : Type :=
  | RuleError (r : rule)
  | Errorf (e : fmterr)
  | TxShaMissing                  (* btcdb.TxShaMissing *)
  | External (code : N).          (* any other error of a collaborator *)

Inductive result (A : Type) : Type :=
  | Ok (a : A)
  | Err (e : error)
  | Panic.
Arguments Ok {A} a.
Arguments Err {A} e.
Arguments Panic {A}.

Definition rbind {A B} (r : result A) (k : A -> result B) : result B :=
  match r with
  | Ok a => k a
  | Err e => Err e
  | Panic => Panic
  end.

Notation "'try!' x := r 'in' k" := (rbind r (fun x => k))
  (at level 10, x pattern, r at level 100, k at level 200).

(** ** Data model (btcwire) *)

Record OutPoint := { Hash : ShaHash; Index : N }.

Record TxIn := {
  PreviousOutpoint : OutPoint;
  SignatureScript : list byte;
  Sequence : N }.

Record TxOut := { Value : Z; PkScript : list byte }.

Record MsgTx := {
  tx_Version : N;
  tx_TxIn : list TxIn;
  tx_TxOut : list TxOut;
  LockTime : N }.

Record BlockHeader := {
  Version : N;
  PrevBlock : ShaHash;
  MerkleRoot : ShaHash;
  Timestamp : Z;
  Bits : N;
  Nonce : N }.

(** [btcutil.Block], reduced to the message it wraps. *)
Record Block := { Header : BlockHeader; Transactions : list MsgTx }.

(** ** Data model (this package) *)

Record blockNode := { hash : ShaHash; height : Z; timestamp : Z }.

(** [tx] is a pointer in the source and may be nil. *)
Record txData := {
  tx : option MsgTx;
  txd_hash : ShaHash;
  blockHeight : Z;
  spent : list bool;
  err : option error }.

Abbreviation Store := (gmap N txData).

Definition set_spent (d : txData) (i : nat) : txData :=
  {| tx := tx d; txd_hash := txd_hash d; blockHeight := blockHeight d;
     spent := <[i := true]> (spent d); err := err d |}.

(** Calls to the chain layer and to the script verifier, in the order they
    are made. *)
Inductive call : Type :=
  | CallFetchTxList (node : blockNode) (hashes : list ShaHash)
  | CallFetchInputTransactions (node : blockNode) (block : Block)
  | CallCheckBlockScripts (block : Block).

(** ** Collaborators and tunables *)

Record Env := {
  (* btcwire *)
  MaxBlockPayload : Z;
  GenesisHash : ShaHash;
  TxSha : MsgTx -> result ShaHash;
  (* btcscript *)
  Bip16Activation : Z;
  GetSigOpCount : list byte -> Z;
  IsPayToScriptHash : list byte -> bool;
  GetPreciseSigOpCount : list byte -> list byte -> bool -> Z;
  (* btcutil.Block *)
  BlockSha : Block -> result ShaHash;
  TxShas : Block -> result (list ShaHash);
  (* time.Now() *)
  now : Z;
  (* this package, other files *)
  CompactToBig : N -> Z;
  ShaHashToBig : ShaHash -> Z;
  powLimit : Z;
  BuildMerkleTreeStore : Block -> list ShaHash;
  fetchTxList : blockNode -> list ShaHash -> result (list txData);
  fetchInputTransactions : blockNode -> Block -> result (gmap N txData);
  LatestCheckpoint : option Z;
  noVerify : bool;
  checkBlockScripts : Block -> gmap N txData -> result unit;
  (* package variable *)
  coinbaseMaturity : Z }.

(** ** Constants *)

Definition satoshiPerBitcoin : Z := 100000000.
Definition maxSatoshi : Z := 21000000 * satoshiPerBitcoin.
Definition maxSigOpsPerBlock (E : Env) : Z := MaxBlockPayload E ÷ 50.
Definition minCoinbaseScriptLen : nat := 2.
Definition maxCoinbaseScriptLen : nat := 100.
Definition serializedHeightVersion : N := 2.
Definition baseSubsidy : Z := 50 * satoshiPerBitcoin.
Definition subsidyHalvingInterval : Z := 210000.
Definition zeroHash : ShaHash := 0%N.
Definition block91842Hash : ShaHash :=
  0x00000000000a4d0a398161ffc163c503763b1f4360639393e0e4c8e300e0caec%N.
Definition block91880Hash : ShaHash :=
  0x00000000000743f190a18c5577a3c2d2a1f610ae9601ac046a38084ccb7cd721%N.

(** ** Predicates *)

Definition isNullOutpoint (outpoint : OutPoint) : bool :=
  (Index outpoint =? MaxUint32)%N && (Hash outpoint =? zeroHash)%N.

Definition isCoinBase (msgTx : MsgTx) : bool :=
  match tx_TxIn msgTx with
  | [txIn] =>
      let prevOut := PreviousOutpoint txIn in
      negb (negb (Index prevOut =? MaxUint32)%N || negb (Hash prevOut =? zeroHash)%N)
  | _ => false
  end.

Definition isBIP0030Node (node : blockNode) : bool :=
  if (height node =? 91842) && (hash node =? block91842Hash)%N then true
  else if (height node =? 91880) && (hash node =? block91880Hash)%N then true
  else false.

Definition calcBlockSubsidy (height : Z) : Z :=
  Z.shiftr baseSubsidy (to_uint (height ÷ subsidyHalvingInterval)).

(** ** checkTransactionSanity *)

(** The loop over [tx.TxOut] (lines 200-230); [totalSatoshi] is the
    accumulator on entry. *)
Fixpoint checkOutputAmounts (outs : list TxOut) (totalSatoshi : Z) : result Z :=
  match outs with
  | [] => Ok totalSatoshi
  | txOut :: rest =>
      let satoshi := Value txOut in
      if satoshi <? 0 then Err (RuleError (NegativeOutput satoshi))
      else if maxSatoshi <? satoshi then Err (RuleError (OutputTooLarge satoshi))
      else
        let totalSatoshi := wrap64 (totalSatoshi + satoshi) in
        if totalSatoshi <? 0 then Err (RuleError (TotalNegative totalSatoshi))
        else if maxSatoshi <? totalSatoshi then Err (RuleError (TotalTooLarge totalSatoshi))
        else checkOutputAmounts rest totalSatoshi
  end.

(** The loop over [tx.TxIn] that fills [existingTxOut].  The key
    [Sprintf("%v%v", hash, index)] determines the pair (the printed hash has a
    fixed width), so the map is a set of pairs. *)
Fixpoint checkDuplicateInputs (ins : list TxIn) (existingTxOut : gset (N * N))
  : result unit :=
  match ins with
  | [] => Ok tt
  | txIn :: rest =>
      let prevOut := PreviousOutpoint txIn in
      let key := (Hash prevOut, Index prevOut) in
      if decide (key ∈ existingTxOut) then Err (RuleError DuplicateOutpoint)
      else checkDuplicateInputs rest ({[ key ]} ∪ existingTxOut)
  end.

Fixpoint checkNoNullInputs (ins : list TxIn) : result unit :=
  match ins with
  | [] => Ok tt
  | txIn :: rest =>
      if isNullOutpoint (PreviousOutpoint txIn) then Err (RuleError NullPrevOut)
      else checkNoNullInputs rest
  end.

Definition checkTransactionSanity (tx : MsgTx) : result unit :=
  if (length (tx_TxIn tx) =? 0)%nat then Err (RuleError NoInputs)
  else if (length (tx_TxOut tx) =? 0)%nat then Err (RuleError NoOutputs)
  else
    try! _ := checkOutputAmounts (tx_TxOut tx) 0 in
    try! _ := checkDuplicateInputs (tx_TxIn tx) ∅ in
    if isCoinBase tx then
      match tx_TxIn tx with
      | txIn0 :: _ =>
          let slen := length (SignatureScript txIn0) in
          if (slen <? minCoinbaseScriptLen)%nat || (maxCoinbaseScriptLen <? slen)%nat
          then Err (RuleError (CoinbaseScriptLen slen))
          else Ok tt
      | [] => Panic
      end
    else checkNoNullInputs (tx_TxIn tx).

(** ** checkProofOfWork *)

Definition checkProofOfWork (E : Env) (block : Block) : result unit :=
  let header := Header block in
  let target := CompactToBig E (Bits header) in
  if target <=? 0 then Err (RuleError TargetTooLow)
  else if powLimit E <? target then Err (RuleError TargetTooHigh)
  else
    try! blockHash := BlockSha E block in
    let hashNum := ShaHashToBig E blockHash in
    if target <? hashNum then Err (RuleError HashAboveTarget)
    else Ok tt.

(** ** Signature operation counting *)

Definition countSigOps (E : Env) (msgTx : MsgTx) : Z :=
  let totalSigOps :=
    fold_left (fun totalSigOps txIn =>
                 wrapInt (totalSigOps + GetSigOpCount E (SignatureScript txIn)))
              (tx_TxIn msgTx) 0 in
  fold_left (fun totalSigOps txOut =>
               wrapInt (totalSigOps + GetSigOpCount E (PkScript txOut)))
            (tx_TxOut msgTx) totalSigOps.

(** The loop of [countP2SHSigOps] over [msgTx.TxIn] (lines 345-387). *)
Fixpoint countP2SHInputs (E : Env) (txHash : ShaHash) (ins : list TxIn)
    (txStore : Store) (totalSigOps : Z) : result Z :=
  match ins with
  | [] => Ok totalSigOps
  | txIn :: rest =>
      let txInHash := Hash (PreviousOutpoint txIn) in
      match txStore !! txInHash with
      | None => Err (Errorf (InputNotFound txHash txInHash))
      | Some originTx =>
          match err originTx, tx originTx with
          | None, Some originMsgTx =>
              let originTxIndex := Index (PreviousOutpoint txIn) in
              if (uint32_len (tx_TxOut originMsgTx) <=? originTxIndex)%N
              then Err (Errorf (IndexOutOfBounds originTxIndex txInHash txHash))
              else
                match tx_TxOut originMsgTx !! N.to_nat originTxIndex with
                | None => Panic
                | Some originOut =>
                    let pkScript := PkScript originOut in
                    if negb (IsPayToScriptHash E pkScript)
                    then countP2SHInputs E txHash rest txStore totalSigOps
                    else
                      let sigScript := SignatureScript txIn in
                      let numSigOps := GetPreciseSigOpCount E sigScript pkScript true in
                      let lastSigOps := totalSigOps in
                      let totalSigOps := wrapInt (totalSigOps + numSigOps) in
                      if totalSigOps <? lastSigOps
                      then Err (Errorf (SigOpsOverflow originTxIndex txInHash))
                      else countP2SHInputs E txHash rest txStore totalSigOps
                end
          | _, _ => Err (Errorf (InputNotFound txHash txInHash))
          end
      end
  end.

Definition countP2SHSigOps (E : Env) (msgTx : MsgTx) (isCoinBaseTx : bool)
    (txStore : Store) : result Z :=
  if isCoinBaseTx then Ok 0
  else
    try! txHash := TxSha E msgTx in
    countP2SHInputs E txHash (tx_TxIn msgTx) txStore 0.

(** ** checkBlockSanity *)

(** [for i, tx := range transactions[1:]] (lines 429-435). *)
Fixpoint checkSingleCoinbase (rest : list MsgTx) (i : nat) : result unit :=
  match rest with
  | [] => Ok tt
  | tx :: rest' =>
      if isCoinBase tx then Err (RuleError (SecondCoinbase i))
      else checkSingleCoinbase rest' (S i)
  end.

Fixpoint checkAllTransactionsSane (transactions : list MsgTx) : result unit :=
  match transactions with
  | [] => Ok tt
  | tx :: rest =>
      try! _ := checkTransactionSanity tx in
      checkAllTransactionsSane rest
  end.

Fixpoint checkDuplicateHashes (txShas : list ShaHash) (existingTxHashes : gset N)
  : result unit :=
  match txShas with
  | [] => Ok tt
  | hash :: rest =>
      if decide (hash ∈ existingTxHashes)
      then Err (RuleError (DuplicateTransaction hash))
      else checkDuplicateHashes rest ({[ hash ]} ∪ existingTxHashes)
  end.

(** The sig-op loop of [checkBlockSanity] (lines 479-491). *)
Fixpoint checkSanitySigOps (E : Env) (transactions : list MsgTx) (totalSigOps : Z)
  : result unit :=
  match transactions with
  | [] => Ok tt
  | tx :: rest =>
      let lastSigOps := totalSigOps in
      let totalSigOps := wrapInt (totalSigOps + countSigOps E tx) in
      if (totalSigOps <? lastSigOps) || (maxSigOpsPerBlock E <? totalSigOps)
      then Err (RuleError (TooManySigOps totalSigOps))
      else checkSanitySigOps E rest totalSigOps
  end.

Definition checkBlockSanity (E : Env) (block : Block) : result unit :=
  try! _ := checkProofOfWork E block in
  let header := Header block in
  if now E + 2 * 3600 <? Timestamp header then Err (RuleError TimestampTooNew)
  else
    let transactions := Transactions block in
    match transactions with
    | [] => Err (RuleError NoTransactions)
    | coinbaseTx :: others =>
        if negb (isCoinBase coinbaseTx) then Err (RuleError FirstNotCoinbase)
        else
          try! _ := checkSingleCoinbase others 0 in
          try! _ := checkAllTransactionsSane transactions in
          match last (BuildMerkleTreeStore E block) with
          | None => Panic
          | Some calculatedMerkleRoot =>
              if negb (MerkleRoot header =? calculatedMerkleRoot)%N
              then Err (RuleError BadMerkleRoot)
              else
                try! txShas := TxShas E block in
                try! _ := checkDuplicateHashes txShas ∅ in
                checkSanitySigOps E transactions 0
          end
    end.

(** ** checkSerializedHeight *)

(** [binary.LittleEndian.Uint32] of four bytes. *)
Definition le_uint32 (b0 b1 b2 b3 : byte) : Z :=
  Z.lor (Z.lor (Z.lor (Z.of_N (Byte.to_N b0))
                      (Z.shiftl (Z.of_N (Byte.to_N b1)) 8))
               (Z.shiftl (Z.of_N (Byte.to_N b2)) 16))
        (Z.shiftl (Z.of_N (Byte.to_N b3)) 24).

Definition checkSerializedHeight (coinbaseTx : MsgTx) (wantHeight : Z) : result unit :=
  match tx_TxIn coinbaseTx with
  | [] => Panic
  | txIn0 :: _ =>
      let sigScript := SignatureScript txIn0 in
      if (length sigScript <? 4)%nat then Err (RuleError NoSerializedHeight)
      else
        (* make([]byte, 4, 4); copy(_, sigScript[1:4]) *)
        match sigScript with
        | _ :: b1 :: b2 :: b3 :: _ =>
            let serializedHeight := le_uint32 b1 b2 b3 Byte.x00 in
            if negb (serializedHeight =? wantHeight)
            then Err (RuleError (WrongSerializedHeight serializedHeight wantHeight))
            else Ok tt
        | _ => Panic
        end
  end.

(** ** checkBIP0030 *)

Definition isTransactionSpent (tx : txData) : bool :=
  forallb (fun isOutputSpent => isOutputSpent) (spent tx).

(** The loop over [txResults] (lines 553-575). *)
Fixpoint checkFetchedDuplicates (txResults : list txData) : result unit :=
  match txResults with
  | [] => Ok tt
  | txD :: rest =>
      match err txD with
      | Some TxShaMissing => checkFetchedDuplicates rest
      | None =>
          if negb (isTransactionSpent txD)
          then Err (RuleError (OverwriteUnspent (txd_hash txD) (blockHeight txD)))
          else checkFetchedDuplicates rest
      | Some e => Err e
      end
  end.

(** The verdict, and the calls made to the chain layer. *)
Definition checkBIP0030 (E : Env) (node : blockNode) (block : Block)
  : result unit * list call :=
  match TxShas E block with
  | Err _ => (Ok tt, [])
  | Panic => (Panic, [])
  | Ok fetchList =>
      (try! txResults := fetchTxList E node fetchList in
       checkFetchedDuplicates txResults,
       [CallFetchTxList node fetchList])
  end.

(** ** checkTransactionInputs *)

(** Code that reads and writes the input store: the store is threaded, and
    an error or a panic leaves it as it was when the error was met. *)
Definition M (A : Type) : Type := Store -> result A * Store.

Definition ret {A} (a : A) : M A := fun s => (Ok a, s).
Definition fail {A} (e : error) : M A := fun s => (Err e, s).
Definition panic {A} : M A := fun s => (Panic, s).
Definition lift {A} (r : result A) : M A := fun s => (r, s).

Definition sbind {A B} (m : M A) (k : A -> M B) : M B :=
  fun s =>
    match m s with
    | (Ok a, s') => k a s'
    | (Err e, s') => (Err e, s')
    | (Panic, s') => (Panic, s')
    end.

Notation "'run!' x := m 'in' k" := (sbind m (fun x => k))
  (at level 10, x pattern, m at level 100, k at level 200).

(** [sum] of the output values as both [checkTransactionInputs] and
    [checkConnectBlock] compute it: an [int64] accumulator, no check. *)
Definition sumOutputs (outs : list TxOut) : Z :=
  fold_left (fun totalSatoshiOut txOut => wrap64 (totalSatoshiOut + Value txOut)) outs 0.

(** The body of the loop over [tx.TxIn] (lines 601-674), for one input. *)
Definition checkInput (E : Env) (txHash : ShaHash) (txHeight : Z) (txIn : TxIn)
    (totalSatoshiIn : Z) : M Z :=
  fun txStore =>
    let txInHash := Hash (PreviousOutpoint txIn) in
    match txStore !! txInHash with
    | None => (Err (RuleError (MissingInput txHash txInHash)), txStore)
    | Some originTx =>
        match tx originTx with
        | None => (Panic, txStore)
        | Some originMsgTx =>
            let originHeight := blockHeight originTx in
            let blocksSincePrev := wrap64 (txHeight - originHeight) in
            if isCoinBase originMsgTx && (blocksSincePrev <? coinbaseMaturity E)
            then (Err (RuleError (ImmatureCoinbaseSpend txHash originHeight txHeight)), txStore)
            else
              let originTxIndex := Index (PreviousOutpoint txIn) in
              if (uint32_len (spent originTx) <=? originTxIndex)%N
              then (Err (Errorf (IndexOutOfBounds originTxIndex txInHash txHash)), txStore)
              else
                match spent originTx !! N.to_nat originTxIndex with
                | None => (Panic, txStore)
                | Some true => (Err (RuleError (DoubleSpend txHash txInHash)), txStore)
                | Some false =>
                    match tx_TxOut originMsgTx !! N.to_nat originTxIndex with
                    | None => (Panic, txStore)
                    | Some originOut =>
                        let originTxSatoshi := Value originOut in
                        if originTxSatoshi <? 0
                        then (Err (RuleError (InputNegative originTxSatoshi)), txStore)
                        else if maxSatoshi <? originTxSatoshi
                        then (Err (RuleError (InputTooLarge originTxSatoshi)), txStore)
                        else
                          let lastSatoshiIn := totalSatoshiIn in
                          let totalSatoshiIn := wrap64 (totalSatoshiIn + originTxSatoshi) in
                          if (totalSatoshiIn <? lastSatoshiIn) || (maxSatoshi <? totalSatoshiIn)
                          then (Err (RuleError (TotalInputTooLarge totalSatoshiIn)), txStore)
                          else
                            (Ok totalSatoshiIn,
                             <[txInHash := set_spent originTx (N.to_nat originTxIndex)]> txStore)
                    end
                end
        end
    end.

Fixpoint checkInputs (E : Env) (txHash : ShaHash) (txHeight : Z) (ins : list TxIn)
    (totalSatoshiIn : Z) : M Z :=
  match ins with
  | [] => ret totalSatoshiIn
  | txIn :: rest =>
      run! totalSatoshiIn := checkInput E txHash txHeight txIn totalSatoshiIn in
      checkInputs E txHash txHeight rest totalSatoshiIn
  end.

Definition checkTransactionInputs (E : Env) (tx : MsgTx) (txHeight : Z) : M Z :=
  if isCoinBase tx then ret 0
  else
    run! txHash := lift (TxSha E tx) in
    run! totalSatoshiIn := checkInputs E txHash txHeight (tx_TxIn tx) 0 in
    let totalSatoshiOut := sumOutputs (tx_TxOut tx) in
    if totalSatoshiIn <? totalSatoshiOut
    then fail (RuleError (SpendsMoreThanInputs txHash totalSatoshiIn totalSatoshiOut))
    else
      let txFeeInSatoshi := wrap64 (totalSatoshiIn - totalSatoshiOut) in
      ret txFeeInSatoshi.

(** ** checkConnectBlock *)

Definition enforceBIP0016 (E : Env) (node : blockNode) : bool :=
  Bip16Activation E <? timestamp node.

(** The sig-op loop (lines 759-787); [i] is the index of the head of
    [transactions] in the block. *)
Fixpoint checkConnectSigOps (E : Env) (enforce : bool) (transactions : list MsgTx)
    (i : nat) (txInputStore : Store) (totalSigOps : Z) : result Z :=
  match transactions with
  | [] => Ok totalSigOps
  | tx :: rest =>
      let numsigOps := countSigOps E tx in
      try! numsigOps :=
        (if enforce then
           try! numP2SHSigOps := countP2SHSigOps E tx (i =? 0)%nat txInputStore in
           Ok (wrapInt (numsigOps + numP2SHSigOps))
         else Ok numsigOps) in
      let lastSigops := totalSigOps in
      let totalSigOps := wrapInt (totalSigOps + numsigOps) in
      if (totalSigOps <? lastSigops) || (maxSigOpsPerBlock E <? totalSigOps)
      then Err (RuleError (TooManySigOps totalSigOps))
      else checkConnectSigOps E enforce rest (S i) txInputStore totalSigOps
  end.

(** The fee loop (lines 796-811). *)
Fixpoint checkConnectFees (E : Env) (transactions : list MsgTx) (txHeight : Z)
    (totalFees : Z) : M Z :=
  match transactions with
  | [] => ret totalFees
  | tx :: rest =>
      run! txFee := checkTransactionInputs E tx txHeight in
      let lastTotalFees := totalFees in
      let totalFees := wrap64 (totalFees + txFee) in
      if totalFees <? lastTotalFees then fail (RuleError FeeOverflow)
      else checkConnectFees E rest txHeight totalFees
  end.

(** The coinbase cap (lines 818-828). *)
Definition checkCoinbaseCap (transactions : list MsgTx) (height totalFees : Z)
  : result unit :=
  match transactions with
  | [] => Panic
  | coinbaseTx :: _ =>
      let totalSatoshiOut := sumOutputs (tx_TxOut coinbaseTx) in
      let expectedSatoshiOut := wrap64 (calcBlockSubsidy height + totalFees) in
      if expectedSatoshiOut <? totalSatoshiOut
      then Err (RuleError (CoinbaseOverpay totalSatoshiOut expectedSatoshiOut))
      else Ok tt
  end.

Definition runScripts (E : Env) (node : blockNode) : bool :=
  match LatestCheckpoint E with
  | Some checkpointHeight =>
      if height node <=? checkpointHeight then false else negb (noVerify E)
  | None => negb (noVerify E)
  end.

(** What a call of [checkConnectBlock] leaves behind: the returned error (or
    nil), the input store it obtained, with the spent bits it set, and the
    calls it made. *)
Record outcome := {
  verdict : result unit;
  inputStore : option Store;
  calls : list call }.

(** [checkConnectBlock] from line 743 on, once [txInputStore] is there. *)
Definition connectWithStore (E : Env) (node : blockNode) (block : Block)
    (txInputStore : Store) : result unit * Store * list call :=
  let transactions := Transactions block in
  match checkConnectSigOps E (enforceBIP0016 E node) transactions 0 txInputStore 0 with
  | Err e => (Err e, txInputStore, [])
  | Panic => (Panic, txInputStore, [])
  | Ok _ =>
      match checkConnectFees E transactions (height node) 0 txInputStore with
      | (Err e, s) => (Err e, s, [])
      | (Panic, s) => (Panic, s, [])
      | (Ok totalFees, s) =>
          match checkCoinbaseCap transactions (height node) totalFees with
          | Err e => (Err e, s, [])
          | Panic => (Panic, s, [])
          | Ok _ =>
              if runScripts E node
              then (checkBlockScripts E block s, s, [CallCheckBlockScripts block])
              else (Ok tt, s, [])
          end
      end
  end.

Definition checkConnectBlock (E : Env) (node : blockNode) (block : Block) : outcome :=
  if (hash node =? GenesisHash E)%N
  then {| verdict := Ok tt; inputStore := None; calls := [] |}
  else
    let enforceBIP0030 := negb (isBIP0030Node node) in
    let '(bip30, calls30) :=
      if enforceBIP0030 then checkBIP0030 E node block else (Ok tt, []) in
    match bip30 with
    | Err e => {| verdict := Err e; inputStore := None; calls := calls30 |}
    | Panic => {| verdict := Panic; inputStore := None; calls := calls30 |}
    | Ok _ =>
        let fetch := CallFetchInputTransactions node block in
        match fetchInputTransactions E node block with
        | Err e => {| verdict := Err e; inputStore := None; calls := calls30 ++ [fetch] |}
        | Panic => {| verdict := Panic; inputStore := None; calls := calls30 ++ [fetch] |}
        | Ok txInputStore =>
            let '(v, s, callsRest) := connectWithStore E node block txInputStore in
            {| verdict := v; inputStore := Some s; calls := calls30 ++ fetch :: callsRest |}
        end
    end.

(** ** isFinalizedTransaction *)

Definition lockTimeThreshold : N := 500000000.

(** [blockTime] is the instant [blockTime.Unix()] reads, in seconds. *)
Definition isFinalizedTransaction (msgTx : MsgTx) (blockHeight : Z) (blockTime : Z) : bool :=
  let lockTime := LockTime msgTx in
  if (lockTime =? 0)%N then true
  else
    let blockTimeOrHeight :=
      if (lockTime <? lockTimeThreshold)%N then blockHeight else blockTime in
    if Z.of_N lockTime <? blockTimeOrHeight then true
    else forallb (fun txIn => (Sequence txIn =? MaxUint32)%N) (tx_TxIn msgTx).

(** * Specification-level notions *)

(** The running sum of the output values, following the specification
    (4.2, rule 3): the signed 64-bit sum after the first [k] additions,
    starting from [start]. *)
Definition runningSumFrom (start : Z) (values : list Z) (k : nat) : Z :=
  fold_left (fun sum v => wrap64 (sum + v)) (take k values) start.

Definition runningSum (values : list Z) (k : nat) : Z := runningSumFrom 0 values k.

(** "The new sum is less than the previous sum, or exceeds MAX_SATOSHI",
    after some addition. *)
Definition overflowsOrExceedsFrom (start : Z) (values : list Z) : Prop :=
  exists k, (k < length values)%nat /\
    (runningSumFrom start values (S k) < runningSumFrom start values k \/
     maxSatoshi < runningSumFrom start values (S k)).

Definition overflowsOrExceeds (values : list Z) : Prop :=
  exists k, (k < length values)%nat /\
    (runningSum values (S k) < runningSum values k \/
     maxSatoshi < runningSum values (S k)).

(** The per-output range check of [checkTransactionSanity]. *)
Definition outputInRange (txOut : TxOut) : Prop := 0 <= Value txOut <= maxSatoshi.

(** The two errors of the check on the total of the outputs. *)
Definition failsTotalOutputCheck (r : result unit) : Prop :=
  exists total,
    r = Err (RuleError (TotalNegative total)) \/
    r = Err (RuleError (TotalTooLarge total)).

(** The sum of a list of amounts, in the integers. *)
Definition Zsum (l : list Z) : Z := foldr Z.add 0 l.

Definition outputTotal (outs : list TxOut) : Z := Zsum (map Value outs).

(** An entry of the store after some spent bits were set: every other field
    is the same, the bitmap has the same length, and a bit that was set is
    still set. *)
Definition entry_extends (d d' : txData) : Prop :=
  tx d' = tx d /\ txd_hash d' = txd_hash d /\ blockHeight d' = blockHeight d /\
  err d' = err d /\ length (spent d') = length (spent d) /\
  forall i, spent d !! i = Some true -> spent d' !! i = Some true.

(** The same keys, and every entry extended. *)
Definition store_extends (s s' : Store) : Prop :=
  forall k, option_Forall2 entry_extends (s !! k) (s' !! k).

(** "An output once marked spent is never unmarked". *)
Definition spentMonotone (s s' : Store) : Prop :=
  forall k d i, s !! k = Some d -> spent d !! i = Some true ->
    exists d', s' !! k = Some d' /\ spent d' !! i = Some true.

(** "No field of the store other than spent is modified": the same keys,
    and at each key the same transaction, hash, height and error. *)
Definition onlySpentModified (s s' : Store) : Prop :=
  forall k,
    match s !! k, s' !! k with
    | Some d, Some d' =>
        tx d' = tx d /\ txd_hash d' = txd_hash d /\
        blockHeight d' = blockHeight d /\ err d' = err d /\
        length (spent d') = length (spent d)
    | None, None => True
    | _, _ => False
    end.

(** The spent bit of an outpoint in a store. *)
Definition isSpent (s : Store) (o : OutPoint) : Prop :=
  exists d, s !! Hash o = Some d /\ spent d !! N.to_nat (Index o) = Some true.

(** The outcome "refused for spending an immature coinbase". *)
Definition rejectedAsImmature {A} (r : result A) : Prop :=
  exists txHash originHeight txHeight,
    r = Err (RuleError (ImmatureCoinbaseSpend txHash originHeight txHeight)).

(** A value of type [int64] that is a height: not negative. *)
Definition isHeight (h : Z) : Prop := 0 <= h < 2 ^ 63.

(** The fees of the transactions of a block: what [checkTransactionInputs]
    returns for each of them in block order, the store being handed from one
    to the next; [None] when one of them is refused. *)
Fixpoint blockFees (E : Env) (transactions : list MsgTx) (txHeight : Z) (s : Store)
  : option (list Z) :=
  match transactions with
  | [] => Some []
  | tx :: rest =>
      match checkTransactionInputs E tx txHeight s with
      | (Ok fee, s') => cons fee <$> blockFees E rest txHeight s'
      | _ => None
      end
  end.

(** The pair that identifies the outpoint of an input. *)
Definition outpointKey (txIn : TxIn) : N * N :=
  (Hash (PreviousOutpoint txIn), Index (PreviousOutpoint txIn)).

(** What [checkTransactionSanity] asks of a transaction. *)
Definition saneTransaction (msgTx : MsgTx) : Prop :=
  tx_TxIn msgTx <> [] /\ tx_TxOut msgTx <> [] /\
  Forall outputInRange (tx_TxOut msgTx) /\
  outputTotal (tx_TxOut msgTx) <= maxSatoshi /\
  NoDup (map outpointKey (tx_TxIn msgTx)) /\
  (if isCoinBase msgTx
   then match tx_TxIn msgTx with
        | txIn0 :: _ => (2 <= length (SignatureScript txIn0) <= 100)%nat
        | [] => False
        end
   else Forall (fun txIn => isNullOutpoint (PreviousOutpoint txIn) = false) (tx_TxIn msgTx)).

(** The value of the output an input refers to, as the store resolves it. *)
Definition inputValue (s : Store) (txIn : TxIn) : option Z :=
  d ← s !! Hash (PreviousOutpoint txIn);
  t ← tx d;
  o ← tx_TxOut t !! N.to_nat (Index (PreviousOutpoint txIn));
  Some (Value o).

(** The values of the outputs the inputs of a transaction refer to. *)
Definition inputValues (s : Store) (msgTx : MsgTx) (values : list Z) : Prop :=
  Forall2 (fun txIn v => inputValue s txIn = Some v) (tx_TxIn msgTx) values.

(** The fee of a transaction against a store: nothing for a coinbase, the
    inputs less the outputs otherwise. *)
Definition feeOf (s : Store) (msgTx : MsgTx) (fee : Z) : Prop :=
  if isCoinBase msgTx then fee = 0
  else exists values,
         inputValues s msgTx values /\ fee = Zsum values - outputTotal (tx_TxOut msgTx).

(** An entry holding a transaction and one spent bit for each of its
    outputs; a store of such entries. *)
Definition wellFormedEntry (d : txData) : Prop :=
  exists t, tx d = Some t /\ length (spent d) = length (tx_TxOut t).

Definition wellFormedStore (s : Store) : Prop :=
  forall k d, s !! k = Some d -> wellFormedEntry d.

(** An earlier copy of a transaction that BIP30 tolerates: none was found,
    or every output of the copy is spent. *)
Definition overwritable (d : txData) : Prop :=
  err d = Some TxShaMissing \/ (err d = None /\ Forall (fun b => b = true) (spent d)).

(** An input that [countP2SHSigOps] can look up. *)
Definition resolvable (s : Store) (txIn : TxIn) : Prop :=
  exists d t,
    s !! Hash (PreviousOutpoint txIn) = Some d /\ err d = None /\ tx d = Some t /\
    (Index (PreviousOutpoint txIn) < uint32_len (tx_TxOut t))%N.

(** The script of the output an input refers to, as the store resolves it. *)
Definition inputScript (s : Store) (txIn : TxIn) : option (list byte) :=
  d ← s !! Hash (PreviousOutpoint txIn);
  t ← tx d;
  o ← tx_TxOut t !! N.to_nat (Index (PreviousOutpoint txIn));
  Some (PkScript o).

(** The precise count an input contributes: that of its signature script
    when the output it spends pays to a script hash, nothing otherwise. *)
Definition p2shSigOps (E : Env) (s : Store) (txIn : TxIn) : Z :=
  match inputScript s txIn with
  | Some pkScript =>
      if IsPayToScriptHash E pkScript
      then GetPreciseSigOpCount E (SignatureScript txIn) pkScript true
      else 0
  | None => 0
  end.

(** A value of Go's [int]. *)
Definition isInt (z : Z) : Prop := - 2 ^ 63 <= z < 2 ^ 63.

(** The script counts of a transaction, inputs first. *)
Definition scriptCounts (E : Env) (msgTx : MsgTx) : list Z :=
  map (fun txIn => GetSigOpCount E (SignatureScript txIn)) (tx_TxIn msgTx) ++
  map (fun txOut => GetSigOpCount E (PkScript txOut)) (tx_TxOut msgTx).

(** What [checkBlockSanity] asks of a block. *)
Definition saneBlock (E : Env) (block : Block) : Prop :=
  exists coinbaseTx others blockHash txShas,
    let target := CompactToBig E (Bits (Header block)) in
    BlockSha E block = Ok blockHash /\
    0 < target <= powLimit E /\ ShaHashToBig E blockHash <= target /\
    Timestamp (Header block) <= now E + 2 * 3600 /\
    Transactions block = coinbaseTx :: others /\
    isCoinBase coinbaseTx = true /\
    Forall (fun msgTx => isCoinBase msgTx = false) others /\
    Forall (fun msgTx => checkTransactionSanity msgTx = Ok tt) (Transactions block) /\
    last (BuildMerkleTreeStore E block) = Some (MerkleRoot (Header block)) /\
    TxShas E block = Ok txShas /\ NoDup txShas /\
    checkSanitySigOps E (Transactions block) 0 = Ok tt.

(** * A concrete setting for the examples

    The collaborators below are stand-ins chosen for the examples: the hash
    of a transaction is read off its lock time (the examples give their
    transactions distinct lock times), the imprecise sig-op count is the
    number of [0xac] bytes, the precise one 20 for every [0xae] byte of the
    signature script, the chain holds no earlier copy of any transaction, and
    the input store is the one given. *)

Definition exampleTxSha (tx : MsgTx) : ShaHash := (1000 + LockTime tx)%N.

Fixpoint countByte (b : byte) (script : list byte) : Z :=
  match script with
  | [] => 0
  | c :: rest => (if Byte.eqb c b then 1 else 0) + countByte b rest
  end.

(** OP_HASH160, a push of 20 bytes, OP_EQUAL. *)
Definition exampleIsPayToScriptHash (script : list byte) : bool :=
  (length script =? 23)%nat &&
  match script !! 0%nat, script !! 1%nat, script !! 22%nat with
  | Some a, Some b, Some c => Byte.eqb a xa9 && Byte.eqb b x14 && Byte.eqb c x87
  | _, _, _ => false
  end.

(** The compact form of a target: a 23-bit mantissa, a sign bit and an
    exponent in bytes. *)
Definition exampleCompactToBig (bits : N) : Z :=
  let mantissa := Z.land (Z.of_N bits) 0x007fffff in
  let exponent := Z.shiftr (Z.of_N bits) 24 in
  let magnitude :=
    if exponent <=? 3 then Z.shiftr mantissa (8 * (3 - exponent))
    else Z.shiftl mantissa (8 * (exponent - 3)) in
  if Z.land (Z.of_N bits) 0x00800000 =? 0 then magnitude else - magnitude.

(** The hashes of the transactions, followed by a root when there is more
    than one (the root of a single transaction is its hash). *)
Definition exampleMerkleTree (txs : list MsgTx) : list ShaHash :=
  match txs with
  | [tx] => [exampleTxSha tx]
  | _ => map exampleTxSha txs ++ [foldr N.add 0%N (map exampleTxSha txs)]
  end.

Definition missingTx (h : ShaHash) : txData :=
  {| tx := None; txd_hash := h; blockHeight := 0; spent := []; err := Some TxShaMissing |}.

Definition exampleEnv (chainStore : Store) : Env := {|
  MaxBlockPayload := 1000000;
  GenesisHash := 0x000000000019d6689c085ae165831e934ff763ae46a2a6c172b3f1b60a8ce26f%N;
  TxSha := fun tx => Ok (exampleTxSha tx);
  Bip16Activation := 1333238400;
  GetSigOpCount := countByte xac;
  IsPayToScriptHash := exampleIsPayToScriptHash;
  GetPreciseSigOpCount := fun sigScript _ bip16 =>
    if bip16 then 20 * countByte xae sigScript else 0;
  BlockSha := fun _ => Ok 1%N;
  TxShas := fun block => Ok (map exampleTxSha (Transactions block));
  now := 1400000000;
  CompactToBig := exampleCompactToBig;
  ShaHashToBig := Z.of_N;
  powLimit := 2 ^ 224 - 1;
  BuildMerkleTreeStore := fun block => exampleMerkleTree (Transactions block);
  fetchTxList := fun _ hashes => Ok (map missingTx hashes);
  fetchInputTransactions := fun _ _ => Ok chainStore;
  LatestCheckpoint := None;
  noVerify := false;
  checkBlockScripts := fun _ _ => Ok tt;
  coinbaseMaturity := 100 |}.

Definition mkOut (v : Z) : TxOut := {| Value := v; PkScript := [] |}.

Definition mkIn (h : ShaHash) (i : N) (script : list byte) : TxIn :=
  {| PreviousOutpoint := {| Hash := h; Index := i |};
     SignatureScript := script; Sequence := MaxUint32 |}.

Definition mkTx (id : N) (ins : list TxIn) (outs : list TxOut) : MsgTx :=
  {| tx_Version := 1; tx_TxIn := ins; tx_TxOut := outs; LockTime := id |}.

(** A coinbase paying [outs], with signature script [script]. *)
Definition mkCoinbase (script : list byte) (outs : list TxOut) : MsgTx :=
  mkTx 0 [mkIn zeroHash MaxUint32 script] outs.

(** A block whose header carries the merkle root [exampleMerkleTree] gives. *)
Definition mkBlock (version : N) (time : Z) (txs : list MsgTx) : Block :=
  {| Header := {| Version := version; PrevBlock := 0%N;
                  MerkleRoot := default 0%N (last (exampleMerkleTree txs));
                  Timestamp := time; Bits := 0x1d00ffff%N; Nonce := 0%N |};
     Transactions := txs |}.

Definition mkEntry (t : MsgTx) (h : Z) (bits : list bool) : txData :=
  {| tx := Some t; txd_hash := exampleTxSha t; blockHeight := h; spent := bits; err := None |}.

(** An earlier ordinary transaction with two unspent outputs, a coinbase
    mined at height 101, and a transaction paying to a script hash. *)
Definition priorTx : MsgTx := mkTx 7 [mkIn 3%N 0 []] [mkOut 1000; mkOut 2000].
Definition priorCoinbase : MsgTx :=
  mkTx 8 [mkIn zeroHash MaxUint32 [x01; x01]] [mkOut 5000000000].
Definition p2shScript : list byte := xa9 :: x14 :: repeat x00 20 ++ [x87].
Definition priorP2SH : MsgTx :=
  mkTx 9 [mkIn 4%N 0 []] [{| Value := 500; PkScript := p2shScript |}].

Definition exampleStore : Store :=
  <[1007%N := mkEntry priorTx 50 [false; false]]>
    (<[1008%N := mkEntry priorCoinbase 101 [false]]>
       (<[1009%N := mkEntry priorP2SH 60 [false]]> ∅)).

(** Two transactions spending the same output of [priorTx]. *)
Definition spendA : MsgTx := mkTx 1 [mkIn 1007%N 0 []] [mkOut 900].
Definition spendB : MsgTx := mkTx 2 [mkIn 1007%N 0 []] [mkOut 800].
(** A spend of the coinbase of height 101. *)
Definition spendCoinbase : MsgTx := mkTx 3 [mkIn 1008%N 0 []] [mkOut 5000000000].

(** A node to connect at, other than the genesis block. *)
Definition exampleNode (h t : Z) : blockNode := {| hash := 0xabc%N; height := h; timestamp := t |}.

(** A coinbase whose outputs add up to 2^64, which is 0 in [int64]. *)
Definition wrappingCoinbase : MsgTx :=
  mkCoinbase [x01; x01] [mkOut (2 ^ 63 - 1); mkOut (2 ^ 63 - 1); mkOut 2].

(** A transaction with a negative output, whose fee comes out as 2^63 - 1. *)
Definition hugeFeeTx : MsgTx := mkTx 4 [mkIn 1007%N 1 []] [mkOut (2001 - 2 ^ 63)].

(** Subsidy 25 * 10^8 at height 210000 and a fee of 100 from [spendA]. *)
Definition capBlock (claimed : Z) : Block :=
  mkBlock 1 1300000000 [mkCoinbase [x01; x01] [mkOut claimed]; spendA].

(** A spend of the script-hash output whose signature script carries 1001
    bytes [0xae]: 20020 precise signature operations, no imprecise one. *)
Definition p2shSpend : MsgTx := mkTx 5 [mkIn 1009%N 0 (repeat xae 1001)] [mkOut 400].

Definition p2shBlock (time : Z) : Block :=
  mkBlock 1 time [mkCoinbase [x01; x01] [mkOut 2500000000]; p2shSpend].

(** [E] with another [TxShas] and another [fetchTxList]. *)
Definition withTxShas (E : Env) (txShas : Block -> result (list ShaHash))
    (fetch : blockNode -> list ShaHash -> result (list txData)) : Env := {|
  MaxBlockPayload := MaxBlockPayload E; GenesisHash := GenesisHash E; TxSha := TxSha E;
  Bip16Activation := Bip16Activation E; GetSigOpCount := GetSigOpCount E;
  IsPayToScriptHash := IsPayToScriptHash E; GetPreciseSigOpCount := GetPreciseSigOpCount E;
  BlockSha := BlockSha E; TxShas := txShas; now := now E;
  CompactToBig := CompactToBig E; ShaHashToBig := ShaHashToBig E; powLimit := powLimit E;
  BuildMerkleTreeStore := BuildMerkleTreeStore E; fetchTxList := fetch;
  fetchInputTransactions := fetchInputTransactions E;
  LatestCheckpoint := LatestCheckpoint E; noVerify := noVerify E;
  checkBlockScripts := checkBlockScripts E; coinbaseMaturity := coinbaseMaturity E |}.

(** A chain on which every transaction asked for exists with an unspent
    output. *)
Definition unspentTx (h : ShaHash) : txData :=
  {| tx := Some priorTx; txd_hash := h; blockHeight := 10; spent := [false]; err := None |}.

Definition duplicatingChain : blockNode -> list ShaHash -> result (list txData) :=
  fun _ hashes => Ok (map unspentTx hashes).

(** A block of version 2 for height 300000 whose coinbase script serializes
    the height 1. *)
Definition wrongHeightCoinbase : MsgTx :=
  mkCoinbase [x03; x01; x00; x00; x00] [mkOut 1250000000].

Definition wrongHeightBlock : Block := mkBlock 2 1400000000 [wrongHeightCoinbase].

(** The same with the height 300000 = 0x0493e0 in bytes 1 to 3. *)
Definition rightHeightCoinbase : MsgTx :=
  mkCoinbase [x03; xe0; x93; x04] [mkOut 1250000000].

(** A block without transactions, and the genesis node of [exampleEnv]. *)
Definition emptyBlock : Block := mkBlock 1 1231006505 [].

Definition genesisNode : blockNode :=
  {| hash := 0x000000000019d6689c085ae165831e934ff763ae46a2a6c172b3f1b60a8ce26f%N;
     height := 0; timestamp := 1231006505 |}.

(** Outputs of [maxSatoshi] and of one satoshi. *)
Definition overMaxTx : MsgTx := mkTx 6 [mkIn 1007%N 0 []] [mkOut maxSatoshi; mkOut 1].

(** The node and the two blocks of the counterexample to the coinbase cap. *)
Definition capNode : blockNode := exampleNode 210000 1300000000.

Definition wrappingBlock : Block := mkBlock 1 1300000000 [wrappingCoinbase].

Definition hugeFeeBlock : Block :=
  mkBlock 1 1300000000 [mkCoinbase [x01; x01] [mkOut 0]; hugeFeeTx].

(** A store whose entry for [priorTx] was not found: no transaction. *)
Definition brokenStore : Store := <[1007%N := missingTx 1007%N]> ∅.

(** A transaction whose only signature script holds [n] bytes [0xac]. *)
Definition sigOpsTx (n : Z) : MsgTx :=
  mkTx 10 [mkIn 1007%N 1 (repeat xac (Z.to_nat n))] [mkOut 1].



Definition earlyBlock : Block :=
  mkBlock 1 1300000000 [mkCoinbase [x01; x01] [mkOut 5000000000]].

(** The first of the two nodes exempt from BIP30. *)
Definition node91842 : blockNode :=
  {| hash := block91842Hash; height := 91842; timestamp := 1289700000 |}.

(** A transaction locked until height 300, with an input that is not final. *)
Definition lockedTx : MsgTx :=
  {| tx_Version := 1;
     tx_TxIn := [{| PreviousOutpoint := {| Hash := 1007%N; Index := 0 |};
                    SignatureScript := []; Sequence := 0 |}];
     tx_TxOut := [mkOut 900]; LockTime := 300 |}.

(** A transaction spending the second output of [priorTx] and then an
    output that is not in the store. *)
Definition halfFoundTx : MsgTx := mkTx 11 [mkIn 1007%N 1 []; mkIn 555%N 0 []] [mkOut 10].

(** * Properties *)

(** ** Arithmetic of the wrapped integers *)

Lemma wrap64_range z : - 2 ^ 63 <= wrap64 z < 2 ^ 63.
Proof. unfold wrap64. pose proof (Z.mod_pos_bound (z + 2 ^ 63) (2 ^ 64)). lia. Qed.

Lemma wrap64_id z : - 2 ^ 63 <= z < 2 ^ 63 -> wrap64 z = z.
Proof. intros Hz. unfold wrap64. rewrite Z.mod_small; lia. Qed.

Lemma wrap64_overflow z : 2 ^ 63 <= z < 2 ^ 64 + 2 ^ 63 -> wrap64 z = z - 2 ^ 64.
Proof.
  intros Hz. unfold wrap64.
  replace (z + 2 ^ 63) with ((z - 2 ^ 63) + 1 * 2 ^ 64) by lia.
  rewrite Z.mod_add by lia. rewrite Z.mod_small; lia.
Qed.

(** Adding a non-negative [int64] to a non-negative [int64]: the sum wraps
    exactly when it is negative, and exactly when it is below the first
    operand. *)
Lemma wrap64_add_nonneg a b :
  0 <= a < 2 ^ 63 -> 0 <= b < 2 ^ 63 ->
  (2 ^ 63 <= a + b <-> wrap64 (a + b) < a) /\
  (wrap64 (a + b) < a <-> wrap64 (a + b) < 0) /\
  (a + b < 2 ^ 63 -> wrap64 (a + b) = a + b).
Proof.
  intros Ha Hb.
  destruct (Z_lt_le_dec (a + b) (2 ^ 63)) as [Hs | Hs].
  - rewrite wrap64_id by lia. lia.
  - rewrite wrap64_overflow by lia. lia.
Qed.

Lemma maxSatoshi_value : maxSatoshi = 2100000000000000.
Proof. reflexivity. Qed.

Lemma baseSubsidy_value : baseSubsidy = 5000000000.
Proof. reflexivity. Qed.

(** ** The block subsidy *)

Lemma calcBlockSubsidy_nonneg_height h :
  0 <= h < 2 ^ 63 ->
  calcBlockSubsidy h = Z.shiftr (50 * 10 ^ 8) (h / 210000).
Proof.
  intros Hh. unfold calcBlockSubsidy, to_uint, subsidyHalvingInterval.
  rewrite baseSubsidy_value.
  rewrite Z.quot_div_nonneg by lia.
  assert (0 <= h / 210000 <= h).
  { split; [apply Z.div_pos; lia |]. apply Z.div_le_upper_bound; lia. }
  rewrite Z.mod_small by lia. reflexivity.
Qed.

Lemma calcBlockSubsidy_bounds h : 0 <= calcBlockSubsidy h <= baseSubsidy.
Proof.
  unfold calcBlockSubsidy, to_uint.
  set (n := (h ÷ subsidyHalvingInterval) mod 2 ^ 64).
  assert (0 <= n) by (apply Z.mod_pos_bound; lia).
  rewrite Z.shiftr_div_pow2 by lia.
  assert (0 < 2 ^ n) by (apply Z.pow_pos_nonneg; lia).
  rewrite baseSubsidy_value. split.
  - apply Z.div_pos; lia.
  - apply Z.div_le_upper_bound; nia.
Qed.

(** From height 33 * 210000 on, nothing is left of the subsidy. *)
Lemma calcBlockSubsidy_saturates h :
  0 <= h < 2 ^ 63 -> 6930000 <= h -> calcBlockSubsidy h = 0.
Proof.
  intros Hh Hbig. rewrite calcBlockSubsidy_nonneg_height by done.
  assert (33 <= h / 210000) by (apply Z.div_le_lower_bound; lia).
  rewrite Z.shiftr_div_pow2 by lia.
  apply Z.div_small. split; [lia |].
  apply Z.lt_le_trans with (2 ^ 33); [reflexivity |].
  apply Z.pow_le_mono_r; lia.
Qed.

(** C5.  For a height [0 <= h] of type [int64], [calcBlockSubsidy h] is
    [50 * 10^8] shifted right by [h / 210000]; it is [50 * 10^8] at heights 0
    and 209999, [25 * 10^8] at 210000 and 0 at 6930000, and it stays 0 from
    there on, up to the largest height. *)
Theorem calcBlockSubsidy_halves (h : Z) :
  0 <= h < 2 ^ 63 ->
  calcBlockSubsidy h = Z.shiftr (50 * 10 ^ 8) (h / 210000) /\
  calcBlockSubsidy 0 = 50 * 10 ^ 8 /\
  calcBlockSubsidy 209999 = 50 * 10 ^ 8 /\
  calcBlockSubsidy 210000 = 25 * 10 ^ 8 /\
  calcBlockSubsidy 6930000 = 0 /\
  calcBlockSubsidy (2 ^ 63 - 1) = 0 /\
  (6930000 <= h -> calcBlockSubsidy h = 0).
Proof.
  intros Hh. split; [by apply calcBlockSubsidy_nonneg_height |].
  do 4 (split; [reflexivity |]).
  split; [apply calcBlockSubsidy_saturates; lia |].
  by apply calcBlockSubsidy_saturates.
Qed.

Lemma calcBlockSubsidy_halves_witness :
  calcBlockSubsidy 420000 = Z.shiftr (50 * 10 ^ 8) (420000 / 210000) /\
  calcBlockSubsidy 420000 = 1250000000.
Proof.
  split; [| reflexivity].
  apply (calcBlockSubsidy_halves 420000). lia.
Defined.

(** ** The total of the outputs in checkTransactionSanity *)

Lemma runningSumFrom_0 start values : runningSumFrom start values 0 = start.
Proof. reflexivity. Qed.

Lemma runningSumFrom_S start v values k :
  runningSumFrom start (v :: values) (S k) = runningSumFrom (wrap64 (start + v)) values k.
Proof. reflexivity. Qed.

Lemma overflowsOrExceedsFrom_cons start v values :
  overflowsOrExceedsFrom start (v :: values) <->
  (wrap64 (start + v) < start \/ maxSatoshi < wrap64 (start + v)) \/
  overflowsOrExceedsFrom (wrap64 (start + v)) values.
Proof.
  unfold overflowsOrExceedsFrom. split.
  - intros [[| k] [Hk Hbad]].
    + left. exact Hbad.
    + right. exists k. rewrite !runningSumFrom_S in Hbad. simpl in Hk. split; [lia | done].
  - intros [Hbad | [k [Hk Hbad]]].
    + exists 0%nat. simpl. split; [lia | exact Hbad].
    + exists (S k). rewrite !runningSumFrom_S. simpl. split; [lia | done].
Qed.

Lemma overflowsOrExceedsFrom_nil start : ~ overflowsOrExceedsFrom start [].
Proof. intros [k [Hk _]]. simpl in Hk. lia. Qed.

Lemma checkOutputAmounts_no_panic outs total : checkOutputAmounts outs total <> Panic.
Proof.
  revert total. induction outs as [| txOut rest IH]; intros total; simpl; [done |].
  repeat case_match; try done.
Qed.

(** A loop that ran to its end saw every output and every running total in
    range. *)
Lemma checkOutputAmounts_Ok outs total t :
  0 <= total <= maxSatoshi ->
  checkOutputAmounts outs total = Ok t ->
  Forall outputInRange outs /\
  t = total + outputTotal outs /\ 0 <= t <= maxSatoshi /\
  ~ overflowsOrExceedsFrom total (map Value outs).
Proof.
  revert total. induction outs as [| txOut rest IH]; intros total Htot; simpl.
  - intros [= <-]. unfold outputTotal. simpl.
    repeat split; [constructor | lia | lia | lia | apply overflowsOrExceedsFrom_nil].
  - rewrite maxSatoshi_value in Htot.
    destruct (Z.ltb_spec (Value txOut) 0); [done |].
    destruct (Z.ltb_spec maxSatoshi (Value txOut)) as [| Hv]; [done |].
    rewrite maxSatoshi_value in Hv.
    rewrite (wrap64_id (total + Value txOut)) by lia.
    destruct (Z.ltb_spec (total + Value txOut) 0); [done |].
    destruct (Z.ltb_spec maxSatoshi (total + Value txOut)) as [| Hs]; [done |].
    intros Hrest. apply IH in Hrest as (Hall & -> & Hrange & Hno); [| lia].
    repeat split; try lia.
    + constructor; [| done]. unfold outputInRange. rewrite maxSatoshi_value. lia.
    + unfold outputTotal. simpl. unfold outputTotal. lia.
    + rewrite overflowsOrExceedsFrom_cons.
      rewrite (wrap64_id (total + Value txOut)) by lia.
      intros [[] |]; [lia | lia | done].
Qed.

(** With every output in range the loop fails only on the total, and then
    the running sum went out of range. *)
Lemma checkOutputAmounts_in_range outs total :
  0 <= total <= maxSatoshi ->
  Forall outputInRange outs ->
  (exists t, checkOutputAmounts outs total = Ok t) \/
  ((exists t, checkOutputAmounts outs total = Err (RuleError (TotalTooLarge t))) /\
   overflowsOrExceedsFrom total (map Value outs)).
Proof.
  revert total. induction outs as [| txOut rest IH]; intros total Htot Hall; simpl.
  - left. by eexists.
  - apply Forall_cons in Hall as [Hv Hall]. unfold outputInRange in Hv.
    rewrite maxSatoshi_value in Htot, Hv.
    destruct (Z.ltb_spec (Value txOut) 0); [lia |].
    destruct (Z.ltb_spec maxSatoshi (Value txOut)) as [Hbig |];
      [rewrite maxSatoshi_value in Hbig; lia |].
    rewrite overflowsOrExceedsFrom_cons.
    rewrite (wrap64_id (total + Value txOut)) by lia.
    destruct (Z.ltb_spec (total + Value txOut) 0); [lia |].
    destruct (Z.ltb_spec maxSatoshi (total + Value txOut)) as [Hs | Hs].
    + right. split; [by eexists | left; by right].
    + destruct (IH (total + Value txOut)) as [Hok | [Herr Hbad]]; [lia | done | |].
      * by left.
      * right. split; [done | by right].
Qed.

Lemma checkDuplicateInputs_cases ins seen :
  checkDuplicateInputs ins seen = Ok tt \/
  checkDuplicateInputs ins seen = Err (RuleError DuplicateOutpoint).
Proof.
  revert seen. induction ins as [| txIn rest IH]; intros seen; simpl; [by left |].
  destruct (decide _); [by right | apply IH].
Qed.

Lemma checkNoNullInputs_cases ins :
  checkNoNullInputs ins = Ok tt \/ checkNoNullInputs ins = Err (RuleError NullPrevOut).
Proof.
  induction ins as [| txIn rest IH]; simpl; [by left |].
  destruct (isNullOutpoint _); [by right | apply IH].
Qed.

(** C3.  (1) On non-negative [int64] operands, the sum overflows exactly when
    the new sum is below the previous one, which is exactly when it is
    negative, the test of the source.  (2) A transaction whose running sum of
    output values overflows or exceeds [maxSatoshi] is rejected.  (3) When
    every output passes the per-output range check (and the transaction has
    an input), [checkTransactionSanity] fails the check on the total exactly
    when, after some addition, the signed running sum is below the sum
    before it or above [maxSatoshi]. *)
Theorem checkTransactionSanity_running_sum :
  (forall prev v, 0 <= prev < 2 ^ 63 -> 0 <= v < 2 ^ 63 ->
     (2 ^ 63 <= prev + v <-> wrap64 (prev + v) < prev) /\
     (wrap64 (prev + v) < prev <-> wrap64 (prev + v) < 0)) /\
  (forall tx, overflowsOrExceeds (map Value (tx_TxOut tx)) ->
     exists e, checkTransactionSanity tx = Err e) /\
  (forall tx, tx_TxIn tx <> [] -> Forall outputInRange (tx_TxOut tx) ->
     (failsTotalOutputCheck (checkTransactionSanity tx) <->
      overflowsOrExceeds (map Value (tx_TxOut tx)))).
Proof.
  split; [| split].
  - intros prev v Hp Hv. destruct (wrap64_add_nonneg prev v Hp Hv) as (H1 & H2 & _). done.
  - intros tx Hbad. unfold checkTransactionSanity.
    destruct (length (tx_TxIn tx) =? 0)%nat; [by eexists |].
    destruct (length (tx_TxOut tx) =? 0)%nat; [by eexists |].
    destruct (checkOutputAmounts (tx_TxOut tx) 0) as [t | e |] eqn:Hloop; simpl.
    + apply checkOutputAmounts_Ok in Hloop as (_ & _ & _ & Hno);
        [| rewrite maxSatoshi_value; lia]. by destruct Hno.
    + by eexists.
    + by apply checkOutputAmounts_no_panic in Hloop.
  - intros tx Hin Hall. unfold checkTransactionSanity.
    assert ((length (tx_TxIn tx) =? 0)%nat = false) as -> by (by destruct (tx_TxIn tx)).
    destruct (Nat.eqb_spec (length (tx_TxOut tx)) 0) as [Hlen | Hlen].
    + apply nil_length_inv in Hlen. rewrite Hlen. split.
      * intros [t [? | ?]]; done.
      * intros Hbad. by apply overflowsOrExceedsFrom_nil in Hbad.
    + destruct (checkOutputAmounts_in_range (tx_TxOut tx) 0) as [[t Hok] | [[t Herr] Hbad]];
        [rewrite maxSatoshi_value; lia | done | |].
      * rewrite Hok. cbn [rbind].
        apply checkOutputAmounts_Ok in Hok as (_ & _ & _ & Hno);
          [| rewrite maxSatoshi_value; lia].
        split; [| intros Hbad; by destruct Hno].
        intros [total Hfail]. exfalso.
        destruct (checkDuplicateInputs_cases (tx_TxIn tx) ∅) as [Hdup | Hdup];
          rewrite Hdup in Hfail; cbn [rbind] in Hfail; [| destruct Hfail; done].
        (* after the loops, no error of the total check remains *)
        destruct (isCoinBase tx).
        -- destruct (tx_TxIn tx); [destruct Hfail; done |].
           destruct (_ || _); destruct Hfail; done.
        -- destruct (checkNoNullInputs_cases (tx_TxIn tx)) as [Hnull | Hnull];
             rewrite Hnull in Hfail; destruct Hfail; done.
      * rewrite Herr. cbn [rbind]. split; [done |].
        intros _. exists t. by right.
Qed.

Lemma checkTransactionSanity_running_sum_witness :
  tx_TxIn overMaxTx <> [] /\
  Forall outputInRange (tx_TxOut overMaxTx) /\
  checkTransactionSanity overMaxTx = Err (RuleError (TotalTooLarge (maxSatoshi + 1))) /\
  overflowsOrExceeds (map Value (tx_TxOut overMaxTx)).
Proof.
  assert (Hin : tx_TxIn overMaxTx <> []) by done.
  assert (Hall : Forall outputInRange (tx_TxOut overMaxTx)).
  { repeat constructor; vm_compute; discriminate. }
  assert (Hrun : checkTransactionSanity overMaxTx
                 = Err (RuleError (TotalTooLarge (maxSatoshi + 1)))) by reflexivity.
  split; [exact Hin |]. split; [exact Hall |]. split; [exact Hrun |].
  apply (proj2 (proj2 checkTransactionSanity_running_sum) overMaxTx Hin Hall).
  exists (maxSatoshi + 1). right. exact Hrun.
Defined.

(** ** The input store: what checkTransactionInputs changes *)

Lemma entry_extends_refl d : entry_extends d d.
Proof. by repeat split. Qed.

Lemma entry_extends_trans d1 d2 d3 :
  entry_extends d1 d2 -> entry_extends d2 d3 -> entry_extends d1 d3.
Proof.
  intros (? & ? & ? & ? & ? & H12) (? & ? & ? & ? & ? & H23).
  repeat split; try congruence. intros i Hi. by apply H23, H12.
Qed.

Lemma entry_extends_set_spent d i : entry_extends d (set_spent d i).
Proof.
  repeat split; simpl.
  - apply length_insert.
  - intros j Hj. destruct (decide (i = j)) as [-> | Hne].
    + apply list_lookup_insert_eq. by eapply lookup_lt_Some.
    + by rewrite list_lookup_insert_ne.
Qed.

Lemma store_extends_refl s : store_extends s s.
Proof.
  intros k. destruct (s !! k); constructor. apply entry_extends_refl.
Qed.

Lemma store_extends_trans s1 s2 s3 :
  store_extends s1 s2 -> store_extends s2 s3 -> store_extends s1 s3.
Proof.
  intros H12 H23 k. specialize (H12 k). specialize (H23 k).
  destruct H12; inversion H23; subst; constructor.
  by eapply entry_extends_trans.
Qed.

Lemma store_extends_insert (s : Store) k d d' :
  s !! k = Some d -> entry_extends d d' -> store_extends s (<[k := d']> s).
Proof.
  intros Hk Hext j. destruct (decide (k = j)) as [<- | Hne].
  - rewrite lookup_insert_eq, Hk. by constructor.
  - rewrite lookup_insert_ne by done. apply store_extends_refl.
Qed.

Lemma store_extends_lookup s s' k d :
  store_extends s s' -> s !! k = Some d ->
  exists d', s' !! k = Some d' /\ entry_extends d d'.
Proof.
  intros Hext Hk. specialize (Hext k). rewrite Hk in Hext.
  inversion Hext; subst. by eexists.
Qed.

Lemma store_extends_monotone s s' : store_extends s s' -> spentMonotone s s'.
Proof.
  intros Hext k d i Hk Hi.
  destruct (store_extends_lookup _ _ _ _ Hext Hk) as (d' & Hk' & Hd).
  exists d'. split; [done |]. by apply Hd.
Qed.

Lemma store_extends_frame s s' : store_extends s s' -> onlySpentModified s s'.
Proof.
  intros Hext k. specialize (Hext k).
  destruct Hext as [d d' (? & ? & ? & ? & ? & _) |]; done.
Qed.

(** What a successful step of the input loop has checked and written. *)
Lemma checkInput_Ok E txHash txHeight txIn total (s s' : Store) t :
  checkInput E txHash txHeight txIn total s = (Ok t, s') ->
  exists d originMsgTx originOut,
    s !! Hash (PreviousOutpoint txIn) = Some d /\
    tx d = Some originMsgTx /\
    isCoinBase originMsgTx && (wrap64 (txHeight - blockHeight d) <? coinbaseMaturity E) = false /\
    (Index (PreviousOutpoint txIn) < uint32_len (spent d))%N /\
    spent d !! N.to_nat (Index (PreviousOutpoint txIn)) = Some false /\
    tx_TxOut originMsgTx !! N.to_nat (Index (PreviousOutpoint txIn)) = Some originOut /\
    0 <= Value originOut <= maxSatoshi /\
    t = wrap64 (total + Value originOut) /\ total <= t <= maxSatoshi /\
    s' = <[Hash (PreviousOutpoint txIn) := set_spent d (N.to_nat (Index (PreviousOutpoint txIn)))]> s.
Proof.
  unfold checkInput. intros Hrun.
  destruct (s !! Hash (PreviousOutpoint txIn)) as [d |] eqn:Hd; [| done].
  destruct (tx d) as [originMsgTx |] eqn:Htx; [| done].
  destruct (isCoinBase originMsgTx && _) eqn:Hmature; [done |].
  destruct (N.leb_spec (uint32_len (spent d)) (Index (PreviousOutpoint txIn))); [done |].
  destruct (spent d !! _) as [[|] |] eqn:Hbit; try done.
  destruct (tx_TxOut originMsgTx !! _) as [originOut |] eqn:Hout; [| done].
  destruct (Z.ltb_spec (Value originOut) 0); [done |].
  destruct (Z.ltb_spec maxSatoshi (Value originOut)); [done |].
  destruct (Z.ltb_spec (wrap64 (total + Value originOut)) total); [done |].
  destruct (Z.ltb_spec maxSatoshi (wrap64 (total + Value originOut))); [done |].
  simpl in Hrun. injection Hrun as <- <-.
  exists d, originMsgTx, originOut. repeat split; try done; lia.
Qed.

Lemma checkInput_extends E txHash txHeight txIn total (s s' : Store) r :
  checkInput E txHash txHeight txIn total s = (r, s') -> store_extends s s'.
Proof.
  destruct r as [t | e |].
  - intros Hrun. apply checkInput_Ok in Hrun as (d & ? & ? & Hd & _ & _ & _ & _ & _ & _ & _ & _ & ->).
    eapply store_extends_insert; [done | apply entry_extends_set_spent].
  - unfold checkInput. repeat case_match; intros Heq; simplify_eq; apply store_extends_refl.
  - unfold checkInput. repeat case_match; intros Heq; simplify_eq; apply store_extends_refl.
Qed.

Lemma checkInputs_extends E txHash txHeight ins total (s s' : Store) r :
  checkInputs E txHash txHeight ins total s = (r, s') -> store_extends s s'.
Proof.
  revert total s. induction ins as [| txIn rest IH]; intros total s; simpl.
  - intros [= <- <-]. apply store_extends_refl.
  - unfold sbind.
    destruct (checkInput E txHash txHeight txIn total s) as [[t | e |] s1] eqn:Hstep;
      apply checkInput_extends in Hstep.
    + intros Hrest. apply IH in Hrest. by eapply store_extends_trans.
    + by intros [= <- <-].
    + by intros [= <- <-].
Qed.

Lemma checkTransactionInputs_extends E tx txHeight (s s' : Store) r :
  checkTransactionInputs E tx txHeight s = (r, s') -> store_extends s s'.
Proof.
  unfold checkTransactionInputs.
  destruct (isCoinBase tx); [intros [= <- <-]; apply store_extends_refl |].
  unfold sbind, lift.
  destruct (TxSha E tx) as [txHash | e |]; try (intros [= <- <-]; apply store_extends_refl).
  destruct (checkInputs E txHash txHeight (tx_TxIn tx) 0 s) as [[t | e |] s1] eqn:Hloop;
    apply checkInputs_extends in Hloop; try (by intros [= <- <-]).
  destruct (_ <? _); by intros [= <- <-].
Qed.

Lemma checkConnectFees_extends E transactions txHeight totalFees (s s' : Store) r :
  checkConnectFees E transactions txHeight totalFees s = (r, s') -> store_extends s s'.
Proof.
  revert totalFees s. induction transactions as [| tx rest IH]; intros totalFees s; simpl.
  - intros [= <- <-]. apply store_extends_refl.
  - unfold sbind.
    destruct (checkTransactionInputs E tx txHeight s) as [[fee | e |] s1] eqn:Hstep;
      apply checkTransactionInputs_extends in Hstep; try (by intros [= <- <-]).
    destruct (_ <? _).
    + by intros [= <- <-].
    + intros Hrest. apply IH in Hrest. by eapply store_extends_trans.
Qed.

Lemma connectWithStore_extends E node block (s s' : Store) v cs :
  connectWithStore E node block s = (v, s', cs) -> store_extends s s'.
Proof.
  unfold connectWithStore.
  destruct (checkConnectSigOps _ _ _ _ _ _); try (intros [= <- <- <-]; apply store_extends_refl).
  destruct (checkConnectFees _ _ _ _ _) as [[totalFees | e |] s1] eqn:Hfees;
    apply checkConnectFees_extends in Hfees; try (by intros [= <- <- <-]).
  destruct (checkCoinbaseCap _ _ _); try (by intros [= <- <- <-]).
  destruct (runScripts E node); by intros [= <- <- <-].
Qed.

(** ** Double spends *)

Lemma checkInputs_app E txHash txHeight pre post total (s : Store) :
  checkInputs E txHash txHeight (pre ++ post) total s =
  match checkInputs E txHash txHeight pre total s with
  | (Ok t, s1) => checkInputs E txHash txHeight post t s1
  | other => other
  end.
Proof.
  revert total s. induction pre as [| txIn rest IH]; intros total s; simpl; [done |].
  unfold sbind. destruct (checkInput E txHash txHeight txIn total s) as [[t | e |] s1]; [apply IH | done | done].
Qed.

(** An input whose output is already marked is refused with the
    double-spend error, once the earlier checks on it have passed. *)
Lemma checkInput_double_spend E txHash txHeight txIn total (s : Store) d originMsgTx :
  s !! Hash (PreviousOutpoint txIn) = Some d ->
  tx d = Some originMsgTx ->
  isCoinBase originMsgTx && (wrap64 (txHeight - blockHeight d) <? coinbaseMaturity E) = false ->
  (Index (PreviousOutpoint txIn) < uint32_len (spent d))%N ->
  spent d !! N.to_nat (Index (PreviousOutpoint txIn)) = Some true ->
  checkInput E txHash txHeight txIn total s =
    (Err (RuleError (DoubleSpend txHash (Hash (PreviousOutpoint txIn)))), s).
Proof.
  intros Hd Htx Hmature Hidx Hbit. unfold checkInput.
  rewrite Hd, Htx, Hmature.
  destruct (N.leb_spec (uint32_len (spent d)) (Index (PreviousOutpoint txIn))); [lia |].
  by rewrite Hbit.
Qed.

Lemma checkInput_spent_not_Ok E txHash txHeight txIn total (s s' : Store) t :
  isSpent s (PreviousOutpoint txIn) ->
  checkInput E txHash txHeight txIn total s <> (Ok t, s').
Proof.
  intros (d & Hd & Hbit) Hrun.
  apply checkInput_Ok in Hrun as (d0 & ? & ? & Hd0 & _ & _ & _ & Hbit0 & _).
  congruence.
Qed.

(** After a successful pass over the inputs, every input's outpoint is
    marked, and the checks that come before the double-spend test hold of
    its entry in the resulting store. *)
Lemma checkInputs_marks E txHash txHeight ins total (s s' : Store) t :
  checkInputs E txHash txHeight ins total s = (Ok t, s') ->
  forall txIn, txIn ∈ ins ->
    exists d originMsgTx,
      s' !! Hash (PreviousOutpoint txIn) = Some d /\
      tx d = Some originMsgTx /\
      isCoinBase originMsgTx && (wrap64 (txHeight - blockHeight d) <? coinbaseMaturity E) = false /\
      (Index (PreviousOutpoint txIn) < uint32_len (spent d))%N /\
      spent d !! N.to_nat (Index (PreviousOutpoint txIn)) = Some true.
Proof.
  revert total s. induction ins as [| txIn0 rest IH]; intros total s; simpl.
  - intros _ txIn Hin. by apply elem_of_nil in Hin.
  - unfold sbind.
    destruct (checkInput E txHash txHeight txIn0 total s) as [[t0 | e |] s1] eqn:Hstep; try done.
    intros Hrest txIn Hin. apply elem_of_cons in Hin as [-> | Hin]; [| by eapply IH].
    apply checkInput_Ok in Hstep
      as (d & originMsgTx & ? & Hd & Htx & Hmature & Hidx & Hbit & _ & _ & _ & _ & ->).
    apply checkInputs_extends in Hrest.
    destruct (store_extends_lookup _ _ (Hash (PreviousOutpoint txIn0)) _ Hrest
                (lookup_insert_eq _ _ _))
      as (d' & Hd' & (Htx' & _ & Hheight' & _ & Hlen' & Hmono)).
    exists d', originMsgTx. simpl in *.
    repeat split; try done.
    + by rewrite Htx'.
    + by rewrite Hheight'.
    + unfold uint32_len in *. rewrite Hlen', length_insert. done.
    + apply Hmono. apply list_lookup_insert_eq. by eapply lookup_lt_Some.
Qed.

Lemma checkTransactionInputs_Ok E tx txHeight (s s' : Store) fee :
  isCoinBase tx = false ->
  checkTransactionInputs E tx txHeight s = (Ok fee, s') ->
  exists txHash totalSatoshiIn,
    TxSha E tx = Ok txHash /\
    checkInputs E txHash txHeight (tx_TxIn tx) 0 s = (Ok totalSatoshiIn, s') /\
    sumOutputs (tx_TxOut tx) <= totalSatoshiIn /\
    fee = wrap64 (totalSatoshiIn - sumOutputs (tx_TxOut tx)).
Proof.
  unfold checkTransactionInputs. intros ->. unfold sbind, lift.
  destruct (TxSha E tx) as [txHash | e |]; try done.
  destruct (checkInputs E txHash txHeight (tx_TxIn tx) 0 s) as [[t | e |] s1] eqn:Hloop;
    try done.
  destruct (Z.ltb_spec t (sumOutputs (tx_TxOut tx))); [done |].
  intros [= <- <-]. exists txHash, t. repeat split; try done; lia.
Qed.

(** C2.  (1) Whatever its outcome, [checkTransactionInputs] leaves set every
    spent bit that was set.  (2) An input whose output is already marked
    spent never passes, and is refused as a double spend once the checks
    before that test (entry found, maturity, index in range) have passed.
    (3) When a transaction has passed and a second transaction of the same
    block refers to one of its outpoints (neither being a coinbase, which
    spends nothing), the bit is set in the store the second one runs on, the
    second one does not pass, and it is refused as a double spend when its
    inputs before the shared one pass. *)
Theorem checkTransactionInputs_double_spend (E : Env) (txHeight : Z) :
  (forall msgTx (s s' : Store) r,
     checkTransactionInputs E msgTx txHeight s = (r, s') -> spentMonotone s s') /\
  (forall txHash txIn total (s : Store),
     isSpent s (PreviousOutpoint txIn) ->
     (forall t s', checkInput E txHash txHeight txIn total s <> (Ok t, s')) /\
     (forall d originMsgTx,
        s !! Hash (PreviousOutpoint txIn) = Some d ->
        tx d = Some originMsgTx ->
        isCoinBase originMsgTx && (wrap64 (txHeight - blockHeight d) <? coinbaseMaturity E) = false ->
        (Index (PreviousOutpoint txIn) < uint32_len (spent d))%N ->
        checkInput E txHash txHeight txIn total s =
          (Err (RuleError (DoubleSpend txHash (Hash (PreviousOutpoint txIn)))), s))) /\
  (forall tx1 tx2 (s s1 : Store) fee txIn1 txIn2 pre post,
     isCoinBase tx1 = false ->
     checkTransactionInputs E tx1 txHeight s = (Ok fee, s1) ->
     txIn1 ∈ tx_TxIn tx1 ->
     isCoinBase tx2 = false ->
     tx_TxIn tx2 = pre ++ txIn2 :: post ->
     PreviousOutpoint txIn2 = PreviousOutpoint txIn1 ->
     isSpent s1 (PreviousOutpoint txIn1) /\
     (forall fee2 s2, checkTransactionInputs E tx2 txHeight s1 <> (Ok fee2, s2)) /\
     (forall txHash2 t s2,
        TxSha E tx2 = Ok txHash2 ->
        checkInputs E txHash2 txHeight pre 0 s1 = (Ok t, s2) ->
        checkTransactionInputs E tx2 txHeight s1 =
          (Err (RuleError (DoubleSpend txHash2 (Hash (PreviousOutpoint txIn1)))), s2))).
Proof.
  split; [| split].
  - intros tx s s' r Hrun. by eapply store_extends_monotone, checkTransactionInputs_extends.
  - intros txHash txIn total s Hspent. split.
    + intros t s'. by apply checkInput_spent_not_Ok.
    + intros d originMsgTx Hd Htx Hmature Hidx.
      destruct Hspent as (d0 & Hd0 & Hbit). rewrite Hd in Hd0. injection Hd0 as <-.
      by eapply checkInput_double_spend.
  - intros tx1 tx2 s s1 fee txIn1 txIn2 pre post Hcb1 Hrun1 Hin1 Hcb2 Hins2 Hsame.
    apply checkTransactionInputs_Ok in Hrun1 as (txHash1 & t1 & _ & Hloop1 & _); [| done].
    destruct (checkInputs_marks _ _ _ _ _ _ _ _ Hloop1 txIn1 Hin1)
      as (d1 & originMsgTx & Hd1 & Htx1 & Hmature1 & Hidx1 & Hbit1).
    (* the shared input of the second transaction, run on a later store *)
    assert (Hshared : forall txHash2 t s2,
      checkInputs E txHash2 txHeight pre 0 s1 = (Ok t, s2) ->
      checkInputs E txHash2 txHeight (tx_TxIn tx2) 0 s1 =
        (Err (RuleError (DoubleSpend txHash2 (Hash (PreviousOutpoint txIn1)))), s2)).
    { intros txHash2 t s2 Hpre. rewrite Hins2, checkInputs_app, Hpre. simpl. unfold sbind.
      apply checkInputs_extends in Hpre.
      destruct (store_extends_lookup _ _ _ _ Hpre Hd1)
        as (d2 & Hd2 & (Htx2 & _ & Hheight2 & _ & Hlen2 & Hmono)).
      rewrite (checkInput_double_spend E txHash2 txHeight txIn2 t s2 d2 originMsgTx);
        rewrite ?Hsame; try done.
      - by rewrite Htx2.
      - by rewrite Hheight2.
      - unfold uint32_len in *. by rewrite Hlen2.
      - by apply Hmono. }
    split; [by exists d1 |]. split.
    + intros fee2 s2 Hrun2.
      apply checkTransactionInputs_Ok in Hrun2 as (txHash2 & t2 & _ & Hloop2 & _); [| done].
      pose proof Hloop2 as Hloop2'.
      rewrite Hins2, checkInputs_app in Hloop2'.
      destruct (checkInputs E txHash2 txHeight pre 0 s1) as [[t | e |] s3] eqn:Hpre; try done.
      rewrite (Hshared _ _ _ Hpre) in Hloop2. done.
    + intros txHash2 t s2 Hsha Hpre.
      unfold checkTransactionInputs. rewrite Hcb2, Hsha. unfold sbind, lift.
      by rewrite (Hshared _ _ _ Hpre).
Qed.

Lemma checkTransactionInputs_double_spend_witness :
  checkTransactionInputs (exampleEnv exampleStore) spendA 200 exampleStore =
    (Ok 100, <[1007%N := mkEntry priorTx 50 [true; false]]> exampleStore) /\
  checkTransactionInputs (exampleEnv exampleStore) spendB 200
    (<[1007%N := mkEntry priorTx 50 [true; false]]> exampleStore) =
    (Err (RuleError (DoubleSpend 1002%N 1007%N)),
     <[1007%N := mkEntry priorTx 50 [true; false]]> exampleStore).
Proof.
  assert (Hfirst : checkTransactionInputs (exampleEnv exampleStore) spendA 200 exampleStore =
    (Ok 100, <[1007%N := mkEntry priorTx 50 [true; false]]> exampleStore)) by reflexivity.
  split; [exact Hfirst |].
  destruct (checkTransactionInputs_double_spend (exampleEnv exampleStore) 200) as (_ & _ & Hpair).
  destruct (Hpair spendA spendB exampleStore
              (<[1007%N := mkEntry priorTx 50 [true; false]]> exampleStore)
              100 (mkIn 1007%N 0 []) (mkIn 1007%N 0 []) [] []
              eq_refl Hfirst (list_elem_of_here _ _) eq_refl eq_refl eq_refl)
    as (_ & _ & Hsecond).
  exact (Hsecond 1002%N 0 _ eq_refl eq_refl).
Defined.

(** ** Coinbase maturity *)

Lemma checkInput_immature_iff E txHash txHeight txIn total (s : Store) d originMsgTx :
  s !! Hash (PreviousOutpoint txIn) = Some d ->
  tx d = Some originMsgTx ->
  isCoinBase originMsgTx = true ->
  (rejectedAsImmature (checkInput E txHash txHeight txIn total s).1 <->
   wrap64 (txHeight - blockHeight d) < coinbaseMaturity E) /\
  (wrap64 (txHeight - blockHeight d) < coinbaseMaturity E ->
   checkInput E txHash txHeight txIn total s =
     (Err (RuleError (ImmatureCoinbaseSpend txHash (blockHeight d) txHeight)), s)).
Proof.
  intros Hd Htx Hcb. unfold checkInput. rewrite Hd, Htx, Hcb. simpl andb.
  destruct (Z.ltb_spec (wrap64 (txHeight - blockHeight d)) (coinbaseMaturity E)) as [Hlt | Hge].
  - split; [| done]. split; [done |]. intros _. by eexists _, _, _.
  - split; [| lia]. split; [| lia].
    intros (a & b & c & Hr). exfalso. revert Hr.
    repeat case_match; simpl; done.
Qed.

Lemma height_difference a b : isHeight a -> isHeight b -> wrap64 (a - b) = a - b.
Proof. unfold isHeight. intros Ha Hb. apply wrap64_id. lia. Qed.

(** C6.  For an input whose prior transaction is a coinbase:
    (1) the input is refused for immaturity exactly when the [int64]
    difference [txHeight - originHeight] is below [coinbaseMaturity], and
    then nothing else is reported; (2) for heights (non-negative [int64]
    values) this is the difference of the integers; (3) with the default
    maturity of 100, a difference of 100 passes the rule and a difference of
    99 is refused; (4) a transaction that passes [checkTransactionInputs] has
    no input spending a coinbase younger than [coinbaseMaturity]. *)
Theorem checkTransactionInputs_coinbase_maturity (E : Env) (txHeight : Z) :
  (forall txHash txIn total (s : Store) d originMsgTx,
     s !! Hash (PreviousOutpoint txIn) = Some d ->
     tx d = Some originMsgTx ->
     isCoinBase originMsgTx = true ->
     (rejectedAsImmature (checkInput E txHash txHeight txIn total s).1 <->
      wrap64 (txHeight - blockHeight d) < coinbaseMaturity E) /\
     (isHeight txHeight -> isHeight (blockHeight d) ->
      (rejectedAsImmature (checkInput E txHash txHeight txIn total s).1 <->
       txHeight - blockHeight d < coinbaseMaturity E)) /\
     (isHeight txHeight -> isHeight (blockHeight d) -> coinbaseMaturity E = 100 ->
      (txHeight - blockHeight d = 100 ->
       ~ rejectedAsImmature (checkInput E txHash txHeight txIn total s).1) /\
      (txHeight - blockHeight d = 99 ->
       checkInput E txHash txHeight txIn total s =
         (Err (RuleError (ImmatureCoinbaseSpend txHash (blockHeight d) txHeight)), s)))) /\
  (forall msgTx (s s' : Store) fee,
     isCoinBase msgTx = false ->
     checkTransactionInputs E msgTx txHeight s = (Ok fee, s') ->
     forall txIn d originMsgTx,
       txIn ∈ tx_TxIn msgTx ->
       s !! Hash (PreviousOutpoint txIn) = Some d ->
       tx d = Some originMsgTx ->
       isCoinBase originMsgTx = true ->
       coinbaseMaturity E <= wrap64 (txHeight - blockHeight d)).
Proof.
  split.
  - intros txHash txIn total s d originMsgTx Hd Htx Hcb.
    destruct (checkInput_immature_iff E txHash txHeight txIn total s d originMsgTx Hd Htx Hcb)
      as [Hiff Hrej].
    split; [exact Hiff |]. split.
    + intros Hh Ho. by rewrite <- (height_difference _ _ Hh Ho).
    + intros Hh Ho Hm. pose proof (height_difference _ _ Hh Ho) as Hdiff. split.
      * intros H100. rewrite Hiff. lia.
      * intros H99. apply Hrej. lia.
  - intros tx0 s s' fee Hcb Hrun txIn d originMsgTx Hin Hd Htx Hocb.
    pose proof (checkTransactionInputs_extends _ _ _ _ _ _ Hrun) as Hext.
    apply checkTransactionInputs_Ok in Hrun as (txHash & t & _ & Hloop & _); [| done].
    destruct (checkInputs_marks _ _ _ _ _ _ _ _ Hloop txIn Hin)
      as (d' & originMsgTx' & Hd' & Htx' & Hmature & _).
    destruct (store_extends_lookup _ _ _ _ Hext Hd) as (d'' & Hd'' & (Hsame & _ & Hheight & _)).
    assert (Some d'' = Some d') as [= ->] by exact (eq_trans (eq_sym Hd'') Hd').
    rewrite Hsame, Htx in Htx'. injection Htx' as <-.
    rewrite Hocb, Hheight in Hmature. simpl in Hmature.
    by apply Z.ltb_ge in Hmature.
Qed.

Lemma checkTransactionInputs_coinbase_maturity_witness :
  (* the coinbase of height 101, spent at height 201 and at height 200 *)
  checkTransactionInputs (exampleEnv exampleStore) spendCoinbase 201 exampleStore =
    (Ok 0, <[1008%N := mkEntry priorCoinbase 101 [true]]> exampleStore) /\
  ~ rejectedAsImmature
      (checkInput (exampleEnv exampleStore) 1003%N 201 (mkIn 1008%N 0 []) 0 exampleStore).1 /\
  checkInput (exampleEnv exampleStore) 1003%N 200 (mkIn 1008%N 0 []) 0 exampleStore =
    (Err (RuleError (ImmatureCoinbaseSpend 1003%N 101 200)), exampleStore) /\
  coinbaseMaturity (exampleEnv exampleStore) <= wrap64 (201 - 101).
Proof.
  assert (Hrun : checkTransactionInputs (exampleEnv exampleStore) spendCoinbase 201 exampleStore =
    (Ok 0, <[1008%N := mkEntry priorCoinbase 101 [true]]> exampleStore)) by reflexivity.
  split; [exact Hrun |].
  assert (Hh : forall h, 200 <= h <= 201 -> isHeight h) by (unfold isHeight; lia).
  assert (Ho : isHeight 101) by (unfold isHeight; lia).
  assert (H200 : 200 <= 200 <= 201) by lia.
  assert (H201 : 200 <= 201 <= 201) by lia.
  split; [| split].
  - exact (proj1 (proj2 (proj2 (proj1
             (checkTransactionInputs_coinbase_maturity (exampleEnv exampleStore) 201)
             1003%N (mkIn 1008%N 0 []) 0 exampleStore (mkEntry priorCoinbase 101 [false])
             priorCoinbase eq_refl eq_refl eq_refl))
           (Hh 201 H201) Ho eq_refl) eq_refl).
  - exact (proj2 (proj2 (proj2 (proj1
             (checkTransactionInputs_coinbase_maturity (exampleEnv exampleStore) 200)
             1003%N (mkIn 1008%N 0 []) 0 exampleStore (mkEntry priorCoinbase 101 [false])
             priorCoinbase eq_refl eq_refl eq_refl))
           (Hh 200 H200) Ho eq_refl) eq_refl).
  - exact (proj2 (checkTransactionInputs_coinbase_maturity (exampleEnv exampleStore) 201)
             spendCoinbase exampleStore _ 0 eq_refl Hrun (mkIn 1008%N 0 [])
             (mkEntry priorCoinbase 101 [false]) priorCoinbase
             (list_elem_of_here _ _) eq_refl eq_refl eq_refl).
Defined.

(** ** Determinism and the frame of checkConnectBlock *)

Lemma checkConnectBlock_inputStore E node block (s' : Store) :
  inputStore (checkConnectBlock E node block) = Some s' ->
  exists s v cs,
    fetchInputTransactions E node block = Ok s /\
    connectWithStore E node block s = (v, s', cs) /\
    verdict (checkConnectBlock E node block) = v.
Proof.
  unfold checkConnectBlock.
  destruct (hash node =? GenesisHash E)%N; [done |].
  destruct (if negb (isBIP0030Node node) then _ else _) as [[[] | e |] calls30]; try done.
  destruct (fetchInputTransactions E node block) as [s | e |]; try done.
  destruct (connectWithStore E node block s) as [[v s1] cs] eqn:Hrun.
  simpl. intros [= <-]. by exists s, v, cs.
Qed.

(** C9.  [checkConnectBlock] reads no clock and iterates over slices only, so
    it is a function of the block, the node and the store it obtains.
    (1) Run on two identical copies of a store, it gives the same verdict and
    leaves the same spent bitmaps (indeed the same stores).  (2) It changes
    the store in the spent bitmaps only: the keys, and at every key the
    transaction, its hash, its height, its error and the length of the
    bitmap are as before; so does [checkTransactionInputs]. *)
Theorem checkConnectBlock_deterministic (E : Env) (node : blockNode) (block : Block) :
  (forall s1 s2 : Store, s1 = s2 ->
     forall v1 v2 s1' s2' cs1 cs2,
       connectWithStore E node block s1 = (v1, s1', cs1) ->
       connectWithStore E node block s2 = (v2, s2', cs2) ->
       v1 = v2 /\ (forall k, spent <$> s1' !! k = spent <$> s2' !! k) /\ s1' = s2') /\
  (forall (s s' : Store) v cs,
     connectWithStore E node block s = (v, s', cs) -> onlySpentModified s s') /\
  (forall s s' : Store,
     fetchInputTransactions E node block = Ok s ->
     inputStore (checkConnectBlock E node block) = Some s' ->
     onlySpentModified s s') /\
  (forall msgTx txHeight (s s' : Store) r,
     checkTransactionInputs E msgTx txHeight s = (r, s') -> onlySpentModified s s').
Proof.
  repeat split.
  - congruence.
  - intros k. congruence.
  - congruence.
  - intros s s' v cs Hrun. by eapply store_extends_frame, connectWithStore_extends.
  - intros s s' Hfetch Hstore.
    apply checkConnectBlock_inputStore in Hstore as (s0 & v & cs & Hfetch0 & Hrun & _).
    rewrite Hfetch in Hfetch0. injection Hfetch0 as <-.
    by eapply store_extends_frame, connectWithStore_extends.
  - intros tx0 txHeight s s' r Hrun.
    by eapply store_extends_frame, checkTransactionInputs_extends.
Qed.

Lemma checkConnectBlock_deterministic_witness :
  connectWithStore (exampleEnv exampleStore) capNode (capBlock 2500000100) exampleStore =
    (Ok tt, <[1007%N := mkEntry priorTx 50 [true; false]]> exampleStore,
     [CallCheckBlockScripts (capBlock 2500000100)]) /\
  onlySpentModified exampleStore (<[1007%N := mkEntry priorTx 50 [true; false]]> exampleStore).
Proof.
  assert (Hrun : connectWithStore (exampleEnv exampleStore) capNode (capBlock 2500000100)
                   exampleStore =
    (Ok tt, <[1007%N := mkEntry priorTx 50 [true; false]]> exampleStore,
     [CallCheckBlockScripts (capBlock 2500000100)])) by reflexivity.
  split; [exact Hrun |].
  exact (proj1 (proj2 (checkConnectBlock_deterministic (exampleEnv exampleStore) capNode
                         (capBlock 2500000100))) _ _ _ _ Hrun).
Defined.

(** ** The coinbase cap *)

Lemma checkTransactionInputs_fee_range E tx txHeight (s s' : Store) fee :
  checkTransactionInputs E tx txHeight s = (Ok fee, s') -> - 2 ^ 63 <= fee < 2 ^ 63.
Proof.
  unfold checkTransactionInputs. destruct (isCoinBase tx).
  - intros [= <- <-]. lia.
  - unfold sbind, lift. repeat case_match; try done.
    intros [= <- <-]. apply wrap64_range.
Qed.

(** The accumulator of the fee loop is the sum of the fees: a negative fee
    or a sum beyond [int64] ends the loop with an error. *)
Lemma checkConnectFees_total E transactions txHeight totalFees (s s' : Store) t :
  0 <= totalFees < 2 ^ 63 ->
  checkConnectFees E transactions txHeight totalFees s = (Ok t, s') ->
  exists fees,
    blockFees E transactions txHeight s = Some fees /\
    Forall (fun fee => 0 <= fee) fees /\
    t = totalFees + Zsum fees /\ 0 <= t < 2 ^ 63.
Proof.
  revert totalFees s. induction transactions as [| tx rest IH]; intros totalFees s Htot; simpl.
  - intros [= <- <-]. exists []. simpl. repeat split; [constructor | lia | lia | lia].
  - unfold sbind.
    destruct (checkTransactionInputs E tx txHeight s) as [[fee | e |] s1] eqn:Hstep; try done.
    apply checkTransactionInputs_fee_range in Hstep as Hfee.
    destruct (Z.ltb_spec (wrap64 (totalFees + fee)) totalFees) as [| Hge]; [done |].
    assert (0 <= fee /\ wrap64 (totalFees + fee) = totalFees + fee) as [Hpos Heq].
    { destruct (Z_lt_le_dec fee 0).
      - rewrite wrap64_id in Hge by lia. lia.
      - destruct (wrap64_add_nonneg totalFees fee) as (Hov & _ & Hid); [lia | lia |].
        destruct (Z_lt_le_dec (totalFees + fee) (2 ^ 63)) as [Hfit | Hwrap];
          [split; [lia | by apply Hid] |].
        apply Hov in Hwrap. lia. }
    rewrite Heq in *.
    pose proof (wrap64_range (totalFees + fee)) as Hr. rewrite Heq in Hr.
    intros Hrest. apply IH in Hrest as (fees & -> & Hall & -> & Hrange); [| lia].
    exists (fee :: fees). simpl. repeat split; [by constructor | lia | lia | lia].
Qed.

(** On outputs that passed the amount checks, the unchecked [int64] sum is
    the sum of the values. *)
Lemma sumOutputs_checked outs t :
  checkOutputAmounts outs 0 = Ok t ->
  sumOutputs outs = outputTotal outs /\ 0 <= outputTotal outs <= maxSatoshi.
Proof.
  intros Hok.
  assert (Hgen : forall outs acc t, 0 <= acc <= maxSatoshi ->
            checkOutputAmounts outs acc = Ok t ->
            fold_left (fun a o => wrap64 (a + Value o)) outs acc = t).
  { clear. induction outs as [| o rest IH]; intros acc t Hacc; simpl; [congruence |].
    rewrite maxSatoshi_value in Hacc.
    destruct (Z.ltb_spec (Value o) 0); [done |].
    destruct (Z.ltb_spec maxSatoshi (Value o)) as [| Hv]; [done |].
    rewrite maxSatoshi_value in Hv.
    rewrite (wrap64_id (acc + Value o)) by lia.
    destruct (Z.ltb_spec (acc + Value o) 0); [done |].
    destruct (Z.ltb_spec maxSatoshi (acc + Value o)); [done |].
    apply IH. lia. }
  unfold sumOutputs. rewrite (Hgen outs 0 t); [| rewrite maxSatoshi_value; lia | done].
  apply checkOutputAmounts_Ok in Hok as (_ & -> & Hr & _); [| rewrite maxSatoshi_value; lia].
  split; lia.
Qed.

Lemma checkTransactionSanity_amounts tx :
  checkTransactionSanity tx = Ok tt -> exists t, checkOutputAmounts (tx_TxOut tx) 0 = Ok t.
Proof.
  unfold checkTransactionSanity.
  destruct (length (tx_TxIn tx) =? 0)%nat; [done |].
  destruct (length (tx_TxOut tx) =? 0)%nat; [done |].
  destruct (checkOutputAmounts (tx_TxOut tx) 0) as [t | e |]; [by eexists | done | done].
Qed.

Lemma checkConnectBlock_accepts E node block :
  hash node <> GenesisHash E ->
  verdict (checkConnectBlock E node block) = Ok tt ->
  exists (s s' : Store) cs,
    fetchInputTransactions E node block = Ok s /\
    connectWithStore E node block s = (Ok tt, s', cs).
Proof.
  intros Hgen. unfold checkConnectBlock.
  destruct (N.eqb_spec (hash node) (GenesisHash E)); [done |].
  destruct (if negb (isBIP0030Node node) then _ else _) as [[[] | e |] calls30]; try done.
  destruct (fetchInputTransactions E node block) as [s | e |]; try done.
  destruct (connectWithStore E node block s) as [[v s1] cs] eqn:Hrun.
  simpl. intros ->. by exists s, s1, cs.
Qed.

Lemma connectWithStore_accepts E node block (s s' : Store) cs :
  connectWithStore E node block s = (Ok tt, s', cs) ->
  exists totalFees,
    checkConnectFees E (Transactions block) (height node) 0 s = (Ok totalFees, s') /\
    checkCoinbaseCap (Transactions block) (height node) totalFees = Ok tt.
Proof.
  unfold connectWithStore.
  destruct (checkConnectSigOps _ _ _ _ _ _); try done.
  destruct (checkConnectFees _ _ _ _ _) as [[totalFees | e |] s1]; try done.
  destruct (checkCoinbaseCap _ _ _) as [[] | e |] eqn:Hcap; try done.
  destruct (runScripts E node); intros Heq; simplify_eq; by exists totalFees.
Qed.

(** The cap, for a coinbase that passed [checkTransactionSanity] and fees as
    the fee loop leaves them. *)
Lemma checkCoinbaseCap_sane coinbaseTx others height totalFees :
  checkTransactionSanity coinbaseTx = Ok tt ->
  0 <= totalFees < 2 ^ 63 ->
  let paid := outputTotal (tx_TxOut coinbaseTx) in
  let expected := calcBlockSubsidy height + totalFees in
  (checkCoinbaseCap (coinbaseTx :: others) height totalFees = Ok tt -> paid <= expected) /\
  (paid <= expected -> expected < 2 ^ 63 ->
   checkCoinbaseCap (coinbaseTx :: others) height totalFees = Ok tt) /\
  (expected < paid ->
   checkCoinbaseCap (coinbaseTx :: others) height totalFees =
     Err (RuleError (CoinbaseOverpay paid expected))).
Proof.
  intros Hsane Hfees paid expected.
  apply checkTransactionSanity_amounts in Hsane as [t Hamounts].
  apply sumOutputs_checked in Hamounts as [Hsum Hrange].
  fold paid in Hsum, Hrange. rewrite maxSatoshi_value in Hrange.
  pose proof (calcBlockSubsidy_bounds height) as Hsub. rewrite baseSubsidy_value in Hsub.
  unfold checkCoinbaseCap. rewrite Hsum. fold expected.
  destruct (Z_lt_le_dec expected (2 ^ 63)) as [Hfit | Hover].
  - rewrite (wrap64_id expected) by (unfold expected; lia).
    destruct (Z.ltb_spec expected paid); repeat split; try done; lia.
  - rewrite (wrap64_overflow expected) by (unfold expected; lia).
    destruct (Z.ltb_spec (expected - 2 ^ 64) paid); repeat split; try done; lia.
Qed.

Lemma connectWithStore_after_fees E node block (s s' : Store) n totalFees :
  checkConnectSigOps E (enforceBIP0016 E node) (Transactions block) 0 s 0 = Ok n ->
  checkConnectFees E (Transactions block) (height node) 0 s = (Ok totalFees, s') ->
  (connectWithStore E node block s).1.1 =
    match checkCoinbaseCap (Transactions block) (height node) totalFees with
    | Ok _ => if runScripts E node then checkBlockScripts E block s' else Ok tt
    | Err e => Err e
    | Panic => Panic
    end.
Proof.
  intros Hsig Hfees. unfold connectWithStore. rewrite Hsig, Hfees.
  destruct (checkCoinbaseCap _ _ _); try done. by destruct (runScripts E node).
Qed.

(** C1 (amended).  Let the coinbase of the block have passed
    [checkTransactionSanity], as it has when the block went through
    [checkBlockSanity].  (1) If [checkConnectBlock] accepts the block on a node
    other than the genesis node, the sum of the coinbase output values is at
    most [calcBlockSubsidy (height node)] plus the sum of the fees of the
    transactions of the block.  (2) Once the sig-op pass and the fee pass
    have succeeded, and with scripts skipped or passing: a coinbase paying
    exactly subsidy plus fees is accepted; one paying one satoshi more is
    refused; one paying less is accepted when subsidy plus fees fits
    [int64]. *)
Theorem checkConnectBlock_coinbase_cap (E : Env) (node : blockNode) (block : Block)
    (coinbaseTx : MsgTx) (others : list MsgTx) :
  Transactions block = coinbaseTx :: others ->
  checkTransactionSanity coinbaseTx = Ok tt ->
  (hash node <> GenesisHash E ->
   verdict (checkConnectBlock E node block) = Ok tt ->
   exists (s : Store) fees,
     fetchInputTransactions E node block = Ok s /\
     blockFees E (Transactions block) (height node) s = Some fees /\
     outputTotal (tx_TxOut coinbaseTx) <= calcBlockSubsidy (height node) + Zsum fees) /\
  (forall (s s' : Store) n totalFees,
     checkConnectSigOps E (enforceBIP0016 E node) (Transactions block) 0 s 0 = Ok n ->
     checkConnectFees E (Transactions block) (height node) 0 s = (Ok totalFees, s') ->
     runScripts E node = false \/ checkBlockScripts E block s' = Ok tt ->
     let paid := outputTotal (tx_TxOut coinbaseTx) in
     let expected := calcBlockSubsidy (height node) + totalFees in
     (paid = expected -> (connectWithStore E node block s).1.1 = Ok tt) /\
     (paid = expected + 1 ->
      (connectWithStore E node block s).1.1 = Err (RuleError (CoinbaseOverpay paid expected))) /\
     (paid < expected -> expected < 2 ^ 63 ->
      (connectWithStore E node block s).1.1 = Ok tt)).
Proof.
  intros Htxs Hsane. split.
  - intros Hgen Hok.
    apply checkConnectBlock_accepts in Hok as (s & s' & cs & Hfetch & Hrun); [| done].
    apply connectWithStore_accepts in Hrun as (totalFees & Hfees & Hcap).
    apply checkConnectFees_total in Hfees as (fees & Hlist & _ & -> & Hrange); [| lia].
    exists s, fees. repeat split; try done.
    rewrite Htxs in Hcap.
    by apply (checkCoinbaseCap_sane coinbaseTx others (height node) (0 + Zsum fees)) in Hcap.
  - intros s s' n totalFees Hsig Hfees Hscripts paid expected.
    rewrite (connectWithStore_after_fees E node block s s' n totalFees Hsig Hfees).
    apply checkConnectFees_total in Hfees as Htotal; [| lia].
    destruct Htotal as (fees & _ & _ & _ & Hrange).
    destruct (checkCoinbaseCap_sane coinbaseTx others (height node) totalFees Hsane Hrange)
      as (_ & Hle & Hgt).
    fold paid expected in Hle, Hgt. rewrite Htxs.
    assert (Hpaid : 0 <= paid <= maxSatoshi).
    { apply checkTransactionSanity_amounts in Hsane as [t Hamounts].
      by apply sumOutputs_checked in Hamounts as [_ ?]. }
    rewrite maxSatoshi_value in Hpaid.
    assert (Hpass : checkCoinbaseCap (coinbaseTx :: others) (height node) totalFees = Ok tt ->
              match checkCoinbaseCap (coinbaseTx :: others) (height node) totalFees with
              | Ok _ => if runScripts E node then checkBlockScripts E block s' else Ok tt
              | Err e => Err e
              | Panic => Panic
              end = Ok tt).
    { intros ->. destruct Hscripts as [-> | Hs]; [done |]. rewrite Hs. by destruct (runScripts E node). }
    split; [| split].
    + intros Heq. apply Hpass, Hle; lia.
    + intros Heq. rewrite Hgt by lia. done.
    + intros Hlt Hfit. apply Hpass, Hle; lia.
Qed.

(** The claim without the condition on the coinbase fails: a coinbase whose
    outputs wrap around is accepted; and without the condition on subsidy
    plus fees, a coinbase claiming nothing is refused. *)
Lemma checkConnectBlock_coinbase_cap_counterexample :
  (hash capNode <> GenesisHash (exampleEnv exampleStore) /\
   verdict (checkConnectBlock (exampleEnv exampleStore) capNode wrappingBlock) = Ok tt /\
   blockFees (exampleEnv exampleStore) (Transactions wrappingBlock) (height capNode)
     exampleStore = Some [0] /\
   outputTotal (tx_TxOut wrappingCoinbase) = 2 ^ 64 /\
   ~ outputTotal (tx_TxOut wrappingCoinbase)
     <= calcBlockSubsidy (height capNode) + Zsum [0]) /\
  (blockFees (exampleEnv exampleStore) (Transactions hugeFeeBlock) (height capNode)
     exampleStore = Some [0; 2 ^ 63 - 1] /\
   0 < calcBlockSubsidy (height capNode) + Zsum [0; 2 ^ 63 - 1] /\
   verdict (checkConnectBlock (exampleEnv exampleStore) capNode hugeFeeBlock) =
     Err (RuleError (CoinbaseOverpay 0 (2500000000 + (2 ^ 63 - 1) - 2 ^ 64)))).
Proof.
  split.
  - split; [done |]. split; [reflexivity |]. split; [reflexivity |].
    split; [reflexivity |]. vm_compute. intros H. apply H. reflexivity.
  - split; [reflexivity |]. split; [reflexivity |]. reflexivity.
Qed.

Lemma checkConnectBlock_coinbase_cap_witness :
  (* fees of 100: a claim of 25 * 10^8 + 100 or + 50 is accepted, + 101 refused *)
  verdict (checkConnectBlock (exampleEnv exampleStore) capNode (capBlock 2500000100)) = Ok tt /\
  verdict (checkConnectBlock (exampleEnv exampleStore) capNode (capBlock 2500000050)) = Ok tt /\
  verdict (checkConnectBlock (exampleEnv exampleStore) capNode (capBlock 2500000101)) =
    Err (RuleError (CoinbaseOverpay 2500000101 2500000100)) /\
  (exists (s : Store) fees,
     fetchInputTransactions (exampleEnv exampleStore) capNode (capBlock 2500000100) = Ok s /\
     blockFees (exampleEnv exampleStore) (Transactions (capBlock 2500000100))
       (height capNode) s = Some fees /\
     2500000100 <= calcBlockSubsidy (height capNode) + Zsum fees) /\
  (connectWithStore (exampleEnv exampleStore) capNode (capBlock 2500000101) exampleStore).1.1 =
    Err (RuleError (CoinbaseOverpay 2500000101 2500000100)).
Proof.
  split; [reflexivity |]. split; [reflexivity |]. split; [reflexivity |]. split.
  - destruct (checkConnectBlock_coinbase_cap (exampleEnv exampleStore)
                capNode (capBlock 2500000100)
                (mkCoinbase [x01; x01] [mkOut 2500000100]) [spendA] eq_refl eq_refl)
      as [Hcap _].
    apply Hcap; [done | reflexivity].
  - destruct (checkConnectBlock_coinbase_cap (exampleEnv exampleStore)
                capNode (capBlock 2500000101)
                (mkCoinbase [x01; x01] [mkOut 2500000101]) [spendA] eq_refl eq_refl)
      as [_ Hedge].
    destruct (Hedge exampleStore (<[1007%N := mkEntry priorTx 50 [true; false]]> exampleStore)
                0 100) as (_ & Hmore & _); [reflexivity | reflexivity | by right |].
    apply Hmore. reflexivity.
Defined.

(** ** The BIP16 gate *)

Lemma enforceBIP0016_iff E node :
  enforceBIP0016 E node = true <-> Bip16Activation E < timestamp node.
Proof. unfold enforceBIP0016. apply Z.ltb_lt. Qed.

(** Without the gate, the sig-op pass of [checkConnectBlock] is the one of
    [checkBlockSanity]: the imprecise counts alone, the store unread. *)
Lemma checkConnectSigOps_plain E transactions i (s : Store) totalSigOps :
  (try! _ := checkConnectSigOps E false transactions i s totalSigOps in Ok tt) =
  checkSanitySigOps E transactions totalSigOps.
Proof.
  revert i totalSigOps. induction transactions as [| tx rest IH]; intros i totalSigOps; simpl.
  - done.
  - destruct (_ || _); [done |]. apply IH.
Qed.

(** C7.  (1) The precise pay-to-script-hash count is enforced exactly when
    the timestamp of the node is strictly after [Bip16Activation].  (2) At a
    timestamp up to and including [Bip16Activation] the sig-op pass counts
    [countSigOps] alone: it returns what the pass of [checkBlockSanity]
    returns, whatever the store.  (3) After it, every transaction
    contributes [countSigOps] plus [countP2SHSigOps] (whose error ends the
    pass).  (4) A block spending a script-hash output with 20020 precise
    signature operations is accepted at [Bip16Activation] and refused, for
    its signature operations, one second later. *)
Theorem checkConnectBlock_bip16_gate :
  (forall E node, enforceBIP0016 E node = true <-> Bip16Activation E < timestamp node) /\
  (forall E node transactions i (s : Store) totalSigOps,
     timestamp node <= Bip16Activation E ->
     (try! _ := checkConnectSigOps E (enforceBIP0016 E node) transactions i s totalSigOps in Ok tt) =
     checkSanitySigOps E transactions totalSigOps) /\
  (forall E node tx rest i (s : Store) totalSigOps,
     Bip16Activation E < timestamp node ->
     checkConnectSigOps E (enforceBIP0016 E node) (tx :: rest) i s totalSigOps =
     try! numP2SHSigOps := countP2SHSigOps E tx (i =? 0)%nat s in
     let numsigOps := wrapInt (countSigOps E tx + numP2SHSigOps) in
     let total := wrapInt (totalSigOps + numsigOps) in
     if (total <? totalSigOps) || (maxSigOpsPerBlock E <? total)
     then Err (RuleError (TooManySigOps total))
     else checkConnectSigOps E (enforceBIP0016 E node) rest (S i) s total) /\
  (verdict (checkConnectBlock (exampleEnv exampleStore)
              (exampleNode 300000 (Bip16Activation (exampleEnv exampleStore)))
              (p2shBlock (Bip16Activation (exampleEnv exampleStore)))) = Ok tt /\
   verdict (checkConnectBlock (exampleEnv exampleStore)
              (exampleNode 300000 (Bip16Activation (exampleEnv exampleStore) + 1))
              (p2shBlock (Bip16Activation (exampleEnv exampleStore) + 1))) =
     Err (RuleError (TooManySigOps 20020)) /\
   maxSigOpsPerBlock (exampleEnv exampleStore) = 20000).
Proof.
  split; [exact enforceBIP0016_iff |]. split; [| split].
  - intros E node transactions i s totalSigOps Hts.
    assert (enforceBIP0016 E node = false) as ->
      by (unfold enforceBIP0016; apply Z.ltb_ge; lia).
    apply checkConnectSigOps_plain.
  - intros E node tx rest i s totalSigOps Hts.
    apply enforceBIP0016_iff in Hts. rewrite Hts. simpl.
    destruct (countP2SHSigOps E tx (i =? 0)%nat s); done.
  - split; [vm_compute; reflexivity |]. split; [vm_compute; reflexivity | reflexivity].
Qed.

Lemma checkConnectBlock_bip16_gate_witness :
  timestamp (exampleNode 300000 1333238400) <= Bip16Activation (exampleEnv exampleStore) /\
  (try! _ := checkConnectSigOps (exampleEnv exampleStore)
               (enforceBIP0016 (exampleEnv exampleStore) (exampleNode 300000 1333238400))
               [p2shSpend] 1 exampleStore 0 in Ok tt) =
  checkSanitySigOps (exampleEnv exampleStore) [p2shSpend] 0.
Proof.
  assert (Hts : timestamp (exampleNode 300000 1333238400)
                <= Bip16Activation (exampleEnv exampleStore)) by (vm_compute; discriminate).
  split; [exact Hts |].
  exact (proj1 (proj2 checkConnectBlock_bip16_gate) (exampleEnv exampleStore)
           (exampleNode 300000 1333238400) [p2shSpend] 1%nat exampleStore 0 Hts).
Defined.

(** ** The genesis block *)

(** C8.  On a node whose hash is the genesis hash, [checkConnectBlock]
    returns nil at once, whatever the block: no call is made to the chain
    layer or to the script verifier, and no input store is obtained. *)
Theorem checkConnectBlock_genesis (E : Env) (node : blockNode) (block : Block) :
  hash node = GenesisHash E ->
  checkConnectBlock E node block = {| verdict := Ok tt; inputStore := None; calls := [] |}.
Proof.
  intros Hgen. unfold checkConnectBlock. by rewrite Hgen, N.eqb_refl.
Qed.

Lemma checkConnectBlock_genesis_witness :
  hash genesisNode = GenesisHash (exampleEnv exampleStore) /\
  Transactions emptyBlock = [] /\
  checkConnectBlock (exampleEnv exampleStore) genesisNode emptyBlock =
    {| verdict := Ok tt; inputStore := None; calls := [] |} /\
  verdict (checkConnectBlock (exampleEnv exampleStore) (exampleNode 0 1231006505) emptyBlock) = Panic.
Proof.
  split; [reflexivity |]. split; [reflexivity |]. split.
  - apply (checkConnectBlock_genesis (exampleEnv exampleStore) genesisNode emptyBlock).
    reflexivity.
  - reflexivity.
Defined.

(** ** The BIP30 check when the hashes cannot be listed *)

Lemma connectWithStore_calls E node block (s s' : Store) v cs :
  connectWithStore E node block s = (v, s', cs) ->
  cs = [] \/ cs = [CallCheckBlockScripts block].
Proof.
  unfold connectWithStore. repeat case_match; intros [= <- <- <-]; auto.
Qed.

(** C10.  When [block.TxShas()] fails, [checkBIP0030] returns nil and does
    not call [fetchTxList]: the failure is not passed on, nothing is
    fetched, and no earlier copy of a transaction can make the block refused
    for overwriting it.  [checkConnectBlock] then goes on without any call of
    [fetchTxList]. *)
Theorem checkBIP0030_hash_listing_failure (E : Env) (node : blockNode) (block : Block)
    (e : error) :
  TxShas E block = Err e ->
  checkBIP0030 E node block = (Ok tt, []) /\
  (forall hashes, CallFetchTxList node hashes ∉ (checkBIP0030 E node block).2) /\
  (forall n hashes, CallFetchTxList n hashes ∉ calls (checkConnectBlock E node block)).
Proof.
  intros Hfail.
  assert (Hbip : checkBIP0030 E node block = (Ok tt, []))
    by (unfold checkBIP0030; by rewrite Hfail).
  split; [exact Hbip |]. split.
  - intros hashes. rewrite Hbip. apply not_elem_of_nil.
  - intros n hashes. unfold checkConnectBlock.
    destruct (hash node =? GenesisHash E)%N; [apply not_elem_of_nil |].
    assert ((if negb (isBIP0030Node node) then checkBIP0030 E node block else (Ok tt, []))
            = (Ok tt, [])) as -> by (by destruct (negb _)).
    destruct (fetchInputTransactions E node block) as [s | e0 |]; simpl.
    + destruct (connectWithStore E node block s) as [[v s'] cs] eqn:Hrun. simpl.
      apply connectWithStore_calls in Hrun as [-> | ->];
        intros Hin; repeat (apply elem_of_cons in Hin as [Hin | Hin]; [done |]);
        by apply elem_of_nil in Hin.
    + intros Hin. apply elem_of_cons in Hin as [Hin | Hin]; [done | by apply elem_of_nil in Hin].
    + intros Hin. apply elem_of_cons in Hin as [Hin | Hin]; [done | by apply elem_of_nil in Hin].
Qed.

Lemma checkBIP0030_hash_listing_failure_witness :
  (* on a chain holding an unspent copy of every transaction, the block is
     refused when its hashes are listed and passes when listing them fails *)
  checkBIP0030 (withTxShas (exampleEnv exampleStore) (TxShas (exampleEnv exampleStore))
                  duplicatingChain)
               (exampleNode 300000 1400000000) (capBlock 2500000100) =
    (Err (RuleError (OverwriteUnspent 1000%N 10)),
     [CallFetchTxList (exampleNode 300000 1400000000) [1000%N; 1001%N]]) /\
  checkBIP0030 (withTxShas (exampleEnv exampleStore) (fun _ => Err (External 1))
                  duplicatingChain)
               (exampleNode 300000 1400000000) (capBlock 2500000100) = (Ok tt, []).
Proof.
  split; [reflexivity |].
  apply (checkBIP0030_hash_listing_failure
           (withTxShas (exampleEnv exampleStore) (fun _ => Err (External 1)) duplicatingChain)
           (exampleNode 300000 1400000000) (capBlock 2500000100) (External 1)).
  reflexivity.
Defined.

(** ** The serialized height *)

Lemma lor_shiftl_add a b n :
  0 <= n -> 0 <= a < 2 ^ n -> 0 <= b -> Z.lor a (Z.shiftl b n) = a + b * 2 ^ n.
Proof.
  intros Hn Ha Hb.
  assert (Hdisjoint : Z.land a (Z.shiftl b n) = 0).
  { apply Z.bits_inj'. intros i Hi. rewrite Z.land_spec, Z.bits_0.
    destruct (Z_lt_le_dec i n).
    - rewrite (Z.shiftl_spec_low b n i) by lia. apply andb_false_r.
    - destruct (Z.eq_dec a 0) as [-> | Hne]; [by rewrite Z.bits_0 |].
      rewrite (Z.bits_above_log2 a i); [done | lia |].
      apply Z.lt_le_trans with n; [| lia]. apply Z.log2_lt_pow2; lia. }
  rewrite <- Z.lxor_lor by done. rewrite <- Z.add_nocarry_lxor by done.
  by rewrite Z.shiftl_mul_pow2.
Qed.

Lemma byte_range b : 0 <= Z.of_N (Byte.to_N b) < 2 ^ 8.
Proof. pose proof (Byte.to_N_bounded b). lia. Qed.

Lemma le_uint32_three b1 b2 b3 :
  le_uint32 b1 b2 b3 x00 =
  Z.of_N (Byte.to_N b1) + 2 ^ 8 * Z.of_N (Byte.to_N b2) + 2 ^ 16 * Z.of_N (Byte.to_N b3).
Proof.
  unfold le_uint32.
  pose proof (byte_range b1). pose proof (byte_range b2). pose proof (byte_range b3).
  change (Z.shiftl (Z.of_N (Byte.to_N x00)) 24) with 0. rewrite Z.lor_0_r.
  rewrite (lor_shiftl_add (Z.of_N (Byte.to_N b1)) _ 8) by lia.
  rewrite (lor_shiftl_add _ (Z.of_N (Byte.to_N b3)) 16) by lia.
  lia.
Qed.

(** C4 (amended).  For a coinbase with an input, [checkSerializedHeight]
    succeeds exactly when the signature script has at least four bytes and
    its bytes 1, 2 and 3 are the little-endian encoding of the wanted
    height; byte 0 and the bytes from the fourth on are not looked at, and
    the height is then below 2^24. *)
Theorem checkSerializedHeight_accepts (coinbaseTx : MsgTx) (txIn0 : TxIn)
    (rest : list TxIn) (wantHeight : Z) :
  tx_TxIn coinbaseTx = txIn0 :: rest ->
  (checkSerializedHeight coinbaseTx wantHeight = Ok tt <->
   exists b0 b1 b2 b3 tail,
     SignatureScript txIn0 = b0 :: b1 :: b2 :: b3 :: tail /\
     wantHeight = Z.of_N (Byte.to_N b1) + 2 ^ 8 * Z.of_N (Byte.to_N b2)
                  + 2 ^ 16 * Z.of_N (Byte.to_N b3)) /\
  (checkSerializedHeight coinbaseTx wantHeight = Ok tt -> 0 <= wantHeight < 2 ^ 24).
Proof.
  intros Hins.
  assert (Hiff : checkSerializedHeight coinbaseTx wantHeight = Ok tt <->
    exists b0 b1 b2 b3 tail,
      SignatureScript txIn0 = b0 :: b1 :: b2 :: b3 :: tail /\
      wantHeight = Z.of_N (Byte.to_N b1) + 2 ^ 8 * Z.of_N (Byte.to_N b2)
                   + 2 ^ 16 * Z.of_N (Byte.to_N b3)).
  { unfold checkSerializedHeight. rewrite Hins.
    destruct (SignatureScript txIn0) as [| b0 [| b1 [| b2 [| b3 tail]]]] eqn:Hscript;
      try (split; [done | by intros (? & ? & ? & ? & ? & ? & _)]).
    change (length (b0 :: b1 :: b2 :: b3 :: tail) <? 4)%nat with false. cbv iota.
    rewrite le_uint32_three.
    destruct (Z.eqb_spec (Z.of_N (Byte.to_N b1) + 2 ^ 8 * Z.of_N (Byte.to_N b2)
                          + 2 ^ 16 * Z.of_N (Byte.to_N b3)) wantHeight) as [Heq | Hne]; simpl.
    - split; [| done]. intros _. by exists b0, b1, b2, b3, tail.
    - split; [done |]. intros (? & ? & ? & ? & ? & [= <- <- <- <- <-] & ->). done. }
  split; [exact Hiff |].
  intros Hok. apply Hiff in Hok as (b0 & b1 & b2 & b3 & tail & _ & ->).
  pose proof (byte_range b1). pose proof (byte_range b2). pose proof (byte_range b3). lia.
Qed.

(** The claim about the pipeline fails: a block of version 2 whose coinbase
    script serializes height 1 passes [checkBlockSanity] and is accepted by
    [checkConnectBlock] at height 300000. *)
Lemma serialized_height_counterexample :
  Version (Header wrongHeightBlock) = 2%N /\
  checkBlockSanity (exampleEnv exampleStore) wrongHeightBlock = Ok tt /\
  verdict (checkConnectBlock (exampleEnv exampleStore) (exampleNode 300000 1400000000)
             wrongHeightBlock) = Ok tt /\
  checkSerializedHeight wrongHeightCoinbase 300000 =
    Err (RuleError (WrongSerializedHeight 1 300000)).
Proof. repeat split; vm_compute; reflexivity. Qed.

Lemma checkSerializedHeight_accepts_witness :
  checkSerializedHeight rightHeightCoinbase 300000 = Ok tt /\
  0 <= 300000 < 2 ^ 24 /\
  exists b0 b1 b2 b3 tail,
     [x03; xe0; x93; x04] = b0 :: b1 :: b2 :: b3 :: tail /\
     300000 = Z.of_N (Byte.to_N b1) + 2 ^ 8 * Z.of_N (Byte.to_N b2)
              + 2 ^ 16 * Z.of_N (Byte.to_N b3).
Proof.
  destruct (checkSerializedHeight_accepts rightHeightCoinbase
              (mkIn zeroHash MaxUint32 [x03; xe0; x93; x04]) [] 300000 eq_refl)
    as [Hiff Hbound].
  assert (Hok : checkSerializedHeight rightHeightCoinbase 300000 = Ok tt) by reflexivity.
  split; [exact Hok |]. split; [by apply Hbound |]. by apply Hiff.
Defined.

(** * Further properties of the validation code *)

(** ** What checkTransactionSanity accepts *)

Lemma checkOutputAmounts_complete outs total :
  0 <= total ->
  Forall outputInRange outs ->
  total + outputTotal outs <= maxSatoshi ->
  checkOutputAmounts outs total = Ok (total + outputTotal outs).
Proof.
  revert total. induction outs as [| txOut rest IH]; intros total Htot Hall Hsum.
  - simpl. unfold outputTotal. simpl. f_equal. lia.
  - apply Forall_cons in Hall as [Hv Hall]. unfold outputInRange in Hv.
    assert (Hrest : 0 <= outputTotal rest).
    { clear -Hall. induction Hall as [| o l Ho _ IH]; unfold outputTotal in *; simpl.
      - lia.
      - unfold outputInRange in Ho. lia. }
    unfold outputTotal in Hsum, Hrest |- *. simpl in Hsum |- *.
    rewrite maxSatoshi_value in Hv, Hsum.
    destruct (Z.ltb_spec (Value txOut) 0); [lia |].
    destruct (Z.ltb_spec maxSatoshi (Value txOut)) as [Hbig |];
      [rewrite maxSatoshi_value in Hbig; lia |].
    rewrite (wrap64_id (total + Value txOut)) by lia.
    destruct (Z.ltb_spec (total + Value txOut) 0); [lia |].
    destruct (Z.ltb_spec maxSatoshi (total + Value txOut)) as [Hbig |];
      [rewrite maxSatoshi_value in Hbig; lia |].
    fold (outputTotal rest). rewrite IH; [f_equal; lia | lia | done |].
    rewrite maxSatoshi_value. unfold outputTotal. lia.
Qed.

Lemma checkDuplicateInputs_iff (ins : list TxIn) (seen : gset (N * N)) :
  checkDuplicateInputs ins seen = Ok tt <->
  NoDup (map outpointKey ins) /\ forall txIn, txIn ∈ ins -> outpointKey txIn ∉ seen.
Proof.
  revert seen. induction ins as [| txIn rest IH]; intros seen; simpl.
  - split; [| done]. intros _. split; [constructor |]. intros ? Hin. by apply elem_of_nil in Hin.
  - fold (outpointKey txIn). destruct (decide (outpointKey txIn ∈ seen)) as [Hseen | Hnew].
    + split; [done |]. intros [_ Hfresh]. destruct (Hfresh txIn); [apply list_elem_of_here | done].
    + rewrite IH. split.
      * intros [Hnodup Hfresh]. split.
        -- constructor; [| done]. intros Hin. apply list_elem_of_fmap in Hin as (y & Hy & Hin).
           apply Hfresh in Hin. rewrite <- Hy in Hin.
           apply Hin, elem_of_union_l, elem_of_singleton. done.
        -- intros y Hy. apply elem_of_cons in Hy as [-> | Hy]; [done |].
           apply Hfresh in Hy. intros Hs. apply Hy, elem_of_union_r, Hs.
      * intros [Hnodup Hfresh]. apply NoDup_cons in Hnodup as [Hhead Hnodup].
        split; [done |]. intros y Hy Hs.
        apply elem_of_union in Hs as [Hs | Hs].
        -- apply elem_of_singleton in Hs. apply Hhead. rewrite <- Hs.
           apply list_elem_of_fmap. by exists y.
        -- apply (Hfresh y); [by apply list_elem_of_further | done].
Qed.

Lemma checkNoNullInputs_iff ins :
  checkNoNullInputs ins = Ok tt <->
  Forall (fun txIn => isNullOutpoint (PreviousOutpoint txIn) = false) ins.
Proof.
  induction ins as [| txIn rest IH]; simpl.
  - split; [constructor | done].
  - destruct (isNullOutpoint (PreviousOutpoint txIn)) eqn:Hnull.
    + split; [done |]. intros Hall. apply Forall_cons in Hall as [? _]. congruence.
    + rewrite IH. split; [by constructor |]. intros Hall. by apply Forall_cons in Hall as [_ ?].
Qed.

(** X1.  [checkTransactionSanity] accepts exactly the transactions with an
    input and an output, every output value in [0, maxSatoshi], the sum of
    the output values at most [maxSatoshi], pairwise distinct outpoints, and
    either (coinbase) a signature script of 2 to 100 bytes or (otherwise) no
    null outpoint. *)
Theorem checkTransactionSanity_iff (msgTx : MsgTx) :
  checkTransactionSanity msgTx = Ok tt <-> saneTransaction msgTx.
Proof.
  unfold checkTransactionSanity, saneTransaction.
  destruct (tx_TxIn msgTx) as [| txIn0 ins] eqn:Hins.
  { simpl. split; [done | by intros [? _]]. }
  destruct (tx_TxOut msgTx) as [| txOut0 outs] eqn:Houts.
  { simpl. split; [done | by intros (_ & ? & _)]. }
  change (length (txIn0 :: ins) =? 0)%nat with false.
  change (length (txOut0 :: outs) =? 0)%nat with false. cbv iota.
  assert (Hbounds : forall n : nat,
            ((n <? minCoinbaseScriptLen)%nat || (maxCoinbaseScriptLen <? n)%nat) = false
            <-> (2 <= n <= 100)%nat).
  { intros n. unfold minCoinbaseScriptLen, maxCoinbaseScriptLen.
    destruct (Nat.ltb_spec n 2), (Nat.ltb_spec 100 n); simpl; split; intros; try done; lia. }
  split.
  - intros Hrun.
    destruct (checkOutputAmounts (txOut0 :: outs) 0) as [t | e |] eqn:Hamounts; try done.
    apply checkOutputAmounts_Ok in Hamounts as (Hall & -> & Hrange & _);
      [| rewrite maxSatoshi_value; lia].
    cbn [rbind] in Hrun.
    destruct (checkDuplicateInputs_cases (txIn0 :: ins) ∅) as [Hdup | Hdup];
      rewrite Hdup in Hrun; [| done].
    apply checkDuplicateInputs_iff in Hdup as [Hnodup _]. cbn [rbind] in Hrun.
    repeat split; try done; [lia |].
    destruct (isCoinBase msgTx).
    + apply Hbounds. by destruct (_ || _).
    + by apply checkNoNullInputs_iff.
  - intros (_ & _ & Hall & Hsum & Hnodup & Hshape).
    rewrite (checkOutputAmounts_complete (txOut0 :: outs) 0) by (done || lia).
    cbn [rbind].
    assert (checkDuplicateInputs (txIn0 :: ins) ∅ = Ok tt) as ->.
    { apply checkDuplicateInputs_iff. split; [done |]. intros ? _. apply not_elem_of_empty. }
    cbn [rbind]. destruct (isCoinBase msgTx).
    + apply Hbounds in Hshape. by rewrite Hshape.
    + by apply checkNoNullInputs_iff.
Qed.

(** ** The fee checkTransactionInputs returns *)

Lemma inputValue_extends (s s' : Store) txIn :
  store_extends s s' -> inputValue s' txIn = inputValue s txIn.
Proof.
  intros Hext. unfold inputValue. specialize (Hext (Hash (PreviousOutpoint txIn))).
  destruct Hext as [d d' (Htx & _) |]; [| done]. simpl. by rewrite Htx.
Qed.

Lemma checkInput_value E txHash txHeight txIn total (s s' : Store) t :
  0 <= total <= maxSatoshi ->
  checkInput E txHash txHeight txIn total s = (Ok t, s') ->
  exists v, inputValue s txIn = Some v /\ 0 <= v <= maxSatoshi /\
            t = total + v /\ 0 <= t <= maxSatoshi.
Proof.
  intros Htot Hrun.
  apply checkInput_Ok in Hrun
    as (d & originMsgTx & originOut & Hd & Htx & _ & _ & _ & Hout & Hv & -> & Ht & _).
  exists (Value originOut). rewrite maxSatoshi_value in *.
  rewrite (wrap64_id (total + Value originOut)) in * by lia.
  repeat split; try lia.
  unfold inputValue. rewrite Hd. simpl. rewrite Htx. simpl. by rewrite Hout.
Qed.

Lemma checkInputs_values E txHash txHeight ins total (s s' : Store) t :
  0 <= total <= maxSatoshi ->
  checkInputs E txHash txHeight ins total s = (Ok t, s') ->
  exists values,
    Forall2 (fun txIn v => inputValue s txIn = Some v) ins values /\
    Forall (fun v => 0 <= v <= maxSatoshi) values /\
    t = total + Zsum values /\ 0 <= t <= maxSatoshi.
Proof.
  revert total s. induction ins as [| txIn rest IH]; intros total s Htot; simpl.
  - intros [= <- <-]. exists []. simpl. repeat split; try constructor; lia.
  - unfold sbind.
    destruct (checkInput E txHash txHeight txIn total s) as [[t0 | e |] s1] eqn:Hstep; try done.
    pose proof (checkInput_extends _ _ _ _ _ _ _ _ Hstep) as Hext.
    apply checkInput_value in Hstep as (v & Hv & Hrange & -> & Ht0); [| done].
    intros Hrest. apply IH in Hrest as (values & Hvalues & Hall & -> & Ht); [| done].
    exists (v :: values). simpl. repeat split; try lia.
    + constructor; [done |].
      eapply Forall2_impl; [exact Hvalues |]. intros txIn' v' Hv'.
      by rewrite <- (inputValue_extends s s1 txIn' Hext).
    + by constructor.
Qed.

(** X2.  For a transaction that passed [checkTransactionSanity], the fee
    [checkTransactionInputs] returns is 0 for a coinbase and otherwise the
    sum of the values of the outputs its inputs refer to, less the sum of
    its own output values; it lies between 0 and [maxSatoshi], so the
    negativity check the source leaves out can indeed never fire. *)
Theorem checkTransactionInputs_fee (E : Env) (msgTx : MsgTx) (txHeight : Z)
    (s s' : Store) (fee : Z) :
  checkTransactionSanity msgTx = Ok tt ->
  checkTransactionInputs E msgTx txHeight s = (Ok fee, s') ->
  feeOf s msgTx fee /\ 0 <= fee <= maxSatoshi.
Proof.
  intros Hsane Hrun. unfold feeOf.
  destruct (isCoinBase msgTx) eqn:Hcb.
  - unfold checkTransactionInputs in Hrun. rewrite Hcb in Hrun.
    injection Hrun as <- <-. rewrite maxSatoshi_value. lia.
  - apply checkTransactionInputs_Ok in Hrun as (txHash & t & _ & Hloop & Hle & ->); [| done].
    apply checkInputs_values in Hloop as (values & Hvalues & _ & -> & Hin);
      [| rewrite maxSatoshi_value; lia].
    apply checkTransactionSanity_amounts in Hsane as [total Hamounts].
    apply sumOutputs_checked in Hamounts as [Hsum Hout].
    rewrite Hsum in *. rewrite maxSatoshi_value in *.
    rewrite wrap64_id by lia.
    split; [| lia]. exists values. split; [exact Hvalues | lia].
Qed.

Lemma checkTransactionInputs_fee_witness :
  checkTransactionInputs (exampleEnv exampleStore) spendA 200 exampleStore =
    (Ok 100, <[1007%N := mkEntry priorTx 50 [true; false]]> exampleStore) /\
  feeOf exampleStore spendA 100 /\ 0 <= 100 <= maxSatoshi.
Proof.
  split; [reflexivity |].
  exact (checkTransactionInputs_fee (exampleEnv exampleStore) spendA 200 exampleStore
           (<[1007%N := mkEntry priorTx 50 [true; false]]> exampleStore) 100
           eq_refl eq_refl).
Defined.

(** ** The outpoints checkTransactionInputs marks *)

Lemma outpoint_eq (o o' : OutPoint) :
  Hash o = Hash o' -> N.to_nat (Index o) = N.to_nat (Index o') -> o = o'.
Proof.
  destruct o, o'. simpl. intros -> Hidx. apply N2Nat.inj in Hidx. by subst.
Qed.

Lemma checkInput_isSpent E txHash txHeight txIn total (s s' : Store) t :
  checkInput E txHash txHeight txIn total s = (Ok t, s') ->
  forall o, isSpent s' o <-> isSpent s o \/ o = PreviousOutpoint txIn.
Proof.
  intros Hrun o.
  pose proof (checkInput_extends _ _ _ _ _ _ _ _ Hrun) as Hext.
  apply checkInput_Ok in Hrun as (d & ? & ? & Hd & _ & _ & _ & Hbit & _ & _ & _ & _ & ->).
  assert (Hlt : (N.to_nat (Index (PreviousOutpoint txIn)) < length (spent d))%nat)
    by (by eapply lookup_lt_Some).
  split.
  - intros (d' & Hd' & Hbit').
    destruct (decide (Hash (PreviousOutpoint txIn) = Hash o)) as [Hh | Hh].
    + rewrite <- Hh, lookup_insert_eq in Hd'. injection Hd' as <-. simpl in Hbit'.
      destruct (decide (N.to_nat (Index (PreviousOutpoint txIn)) = N.to_nat (Index o)))
        as [Hi | Hi].
      * right. by apply outpoint_eq.
      * left. rewrite list_lookup_insert_ne in Hbit' by done.
        exists d. by rewrite <- Hh.
    + left. rewrite lookup_insert_ne in Hd' by done. by exists d'.
  - intros [Hold | ->].
    + destruct Hold as (d0 & Hd0 & Hbit0).
      by apply (store_extends_monotone _ _ Hext (Hash o) d0).
    + eexists. split; [apply lookup_insert_eq |]. simpl. by apply list_lookup_insert_eq.
Qed.

Lemma checkInput_failure_store E txHash txHeight txIn total (s s' : Store) r :
  checkInput E txHash txHeight txIn total s = (r, s') ->
  (forall t, r <> Ok t) -> s' = s.
Proof.
  unfold checkInput. intros Hrun Hfail.
  repeat case_match; simplify_eq; try done. by destruct (Hfail (wrap64 (total + Value t0))).
Qed.

Lemma checkInputs_isSpent E txHash txHeight ins total (s s' : Store) r :
  checkInputs E txHash txHeight ins total s = (r, s') ->
  (forall o, isSpent s' o -> isSpent s o \/ o ∈ map PreviousOutpoint ins) /\
  (forall t, r = Ok t -> forall o, o ∈ map PreviousOutpoint ins -> isSpent s' o).
Proof.
  revert total s. induction ins as [| txIn rest IH]; intros total s; simpl.
  - intros [= <- <-]. split; [by left |]. intros ? _ o Ho. by apply elem_of_nil in Ho.
  - unfold sbind.
    destruct (checkInput E txHash txHeight txIn total s) as [[t0 | e |] s1] eqn:Hstep.
    + intros Hrest. pose proof (checkInputs_extends _ _ _ _ _ _ _ _ Hrest) as Hext.
      apply IH in Hrest as [Honly Hall].
      pose proof (checkInput_isSpent _ _ _ _ _ _ _ _ Hstep) as Hstep'. split.
      * intros o Ho. apply Honly in Ho as [Ho | Ho].
        -- apply Hstep' in Ho as [Ho | ->]; [by left | right; apply list_elem_of_here].
        -- right. by apply list_elem_of_further.
      * intros t -> o Ho. apply elem_of_cons in Ho as [-> | Ho]; [| by eapply Hall].
        assert (isSpent s1 (PreviousOutpoint txIn)) as (d & Hd & Hbit)
          by (apply Hstep'; by right).
        by apply (store_extends_monotone _ _ Hext _ d).
    + intros [= <- <-]. apply checkInput_failure_store in Hstep as ->; [| done].
      split; [by left | done].
    + intros [= <- <-]. apply checkInput_failure_store in Hstep as ->; [| done].
      split; [by left | done].
Qed.

(** X3.  Whatever its outcome, [checkTransactionInputs] marks as spent only
    outpoints that the transaction refers to (and none for a coinbase); when
    it succeeds on a transaction that is not a coinbase, every outpoint the
    transaction refers to is marked. *)
Theorem checkTransactionInputs_marks (E : Env) (msgTx : MsgTx) (txHeight : Z)
    (s s' : Store) (r : result Z) :
  checkTransactionInputs E msgTx txHeight s = (r, s') ->
  (forall o, isSpent s' o ->
     isSpent s o \/
     (isCoinBase msgTx = false /\ o ∈ map PreviousOutpoint (tx_TxIn msgTx))) /\
  (forall fee, r = Ok fee -> isCoinBase msgTx = false ->
     forall o, o ∈ map PreviousOutpoint (tx_TxIn msgTx) -> isSpent s' o).
Proof.
  unfold checkTransactionInputs. destruct (isCoinBase msgTx).
  { intros [= <- <-]. split; [by left | done]. }
  unfold sbind, lift. destruct (TxSha E msgTx) as [txHash | e |];
    try (intros [= <- <-]; split; [by left | done]).
  destruct (checkInputs E txHash txHeight (tx_TxIn msgTx) 0 s) as [[t | e |] s1] eqn:Hloop;
    apply checkInputs_isSpent in Hloop as [Honly Hall].
  - destruct (_ <? _); intros [= <- <-].
    + split; [| done]. intros o Ho. apply Honly in Ho as [|]; [by left | by right].
    + split.
      * intros o Ho. apply Honly in Ho as [|]; [by left | by right].
      * intros fee _ _ o Ho. by eapply Hall.
  - intros [= <- <-]. split; [| done].
    intros o Ho. apply Honly in Ho as [|]; [by left | by right].
  - intros [= <- <-]. split; [| done].
    intros o Ho. apply Honly in Ho as [|]; [by left | by right].
Qed.

Lemma checkTransactionInputs_marks_witness :
  isSpent (<[1007%N := mkEntry priorTx 50 [true; false]]> exampleStore)
          {| Hash := 1007%N; Index := 0%N |} /\
  ~ isSpent exampleStore {| Hash := 1007%N; Index := 0%N |}.
Proof.
  split.
  - apply (proj2 (checkTransactionInputs_marks (exampleEnv exampleStore) spendA 200
                    exampleStore _ (Ok 100) eq_refl) 100 eq_refl eq_refl).
    apply list_elem_of_here.
  - intros (d & Hd & Hbit). vm_compute in Hd. injection Hd as <-. discriminate Hbit.
Defined.

(** ** Outpoints spent once *)

Lemma checkInputs_fresh E txHash txHeight ins total (s s' : Store) t :
  checkInputs E txHash txHeight ins total s = (Ok t, s') ->
  (forall txIn, txIn ∈ ins -> ~ isSpent s (PreviousOutpoint txIn)) /\
  NoDup (map PreviousOutpoint ins).
Proof.
  revert total s. induction ins as [| txIn rest IH]; intros total s; simpl.
  - intros _. split; [| constructor]. intros ? Hin. by apply elem_of_nil in Hin.
  - unfold sbind.
    destruct (checkInput E txHash txHeight txIn total s) as [[t0 | e |] s1] eqn:Hstep; try done.
    intros Hrest. apply IH in Hrest as [Hfresh Hnodup].
    pose proof (checkInput_isSpent _ _ _ _ _ _ _ _ Hstep) as Hstep'. split.
    + intros y Hy. apply elem_of_cons in Hy as [-> | Hy].
      * intros Hspent. by eapply checkInput_spent_not_Ok.
      * intros Hspent. apply (Hfresh y Hy). apply Hstep'. by left.
    + constructor; [| done]. intros Hin.
      apply list_elem_of_fmap in Hin as (y & Hy & Hin).
      apply (Hfresh y Hin). apply Hstep'. by right.
Qed.

(** X4.  A transaction that is not a coinbase and passes
    [checkTransactionInputs] refers to pairwise distinct outpoints, none of
    which was marked spent in the store it ran on. *)
Theorem checkTransactionInputs_spends_once (E : Env) (msgTx : MsgTx) (txHeight : Z)
    (s s' : Store) (fee : Z) :
  isCoinBase msgTx = false ->
  checkTransactionInputs E msgTx txHeight s = (Ok fee, s') ->
  NoDup (map PreviousOutpoint (tx_TxIn msgTx)) /\
  (forall txIn, txIn ∈ tx_TxIn msgTx -> ~ isSpent s (PreviousOutpoint txIn)).
Proof.
  intros Hcb Hrun.
  apply checkTransactionInputs_Ok in Hrun as (txHash & t & _ & Hloop & _); [| done].
  apply checkInputs_fresh in Hloop as [Hfresh Hnodup]. by split.
Qed.

Lemma checkTransactionInputs_spends_once_witness :
  NoDup (map PreviousOutpoint (tx_TxIn spendA)) /\
  (forall txIn, txIn ∈ tx_TxIn spendA -> ~ isSpent exampleStore (PreviousOutpoint txIn)).
Proof.
  exact (checkTransactionInputs_spends_once (exampleEnv exampleStore) spendA 200
           exampleStore _ 100 eq_refl eq_refl).
Defined.

(** ** Panics *)

Lemma uint32_len_le {A} (l : list A) : (uint32_len l <= N.of_nat (length l))%N.
Proof. unfold uint32_len. apply N.Div0.mod_le. Qed.

Lemma wellFormedStore_extends (s s' : Store) :
  wellFormedStore s -> store_extends s s' -> wellFormedStore s'.
Proof.
  intros Hwf Hext k d' Hd'. specialize (Hext k). rewrite Hd' in Hext.
  inversion Hext as [d ? (Htx & _ & _ & _ & Hlen & _) Hd |]; subst.
  destruct (Hwf k d) as (t & Ht & Hl); [done |].
  exists t. split; congruence.
Qed.

Lemma checkInput_no_panic E txHash txHeight txIn total (s : Store) :
  wellFormedStore s -> (checkInput E txHash txHeight txIn total s).1 <> Panic.
Proof.
  intros Hwf. unfold checkInput.
  destruct (s !! Hash (PreviousOutpoint txIn)) as [d |] eqn:Hd; [| done].
  destruct (Hwf _ _ Hd) as (t & -> & Hlen).
  destruct (isCoinBase t && _); [done |].
  destruct (N.leb_spec (uint32_len (spent d)) (Index (PreviousOutpoint txIn))) as [| Hidx];
    [done |].
  pose proof (uint32_len_le (spent d)) as Hle.
  assert (Hlt : (N.to_nat (Index (PreviousOutpoint txIn)) < length (spent d))%nat) by lia.
  destruct (lookup_lt_is_Some_2 (spent d) _ Hlt) as [b ->].
  destruct b; [done |].
  rewrite Hlen in Hlt.
  destruct (lookup_lt_is_Some_2 (tx_TxOut t) _ Hlt) as [o ->].
  repeat case_match; done.
Qed.

Lemma checkInputs_no_panic E txHash txHeight ins total (s : Store) :
  wellFormedStore s -> (checkInputs E txHash txHeight ins total s).1 <> Panic.
Proof.
  revert total s. induction ins as [| txIn rest IH]; intros total s Hwf; simpl; [done |].
  unfold sbind.
  pose proof (checkInput_no_panic E txHash txHeight txIn total s Hwf) as Hstep.
  destruct (checkInput E txHash txHeight txIn total s) as [[t | e |] s1] eqn:Hrun; try done.
  apply IH. eapply wellFormedStore_extends; [done |]. by eapply checkInput_extends.
Qed.

Lemma checkTransactionInputs_no_panic E msgTx txHeight (s : Store) :
  wellFormedStore s -> TxSha E msgTx <> Panic ->
  (checkTransactionInputs E msgTx txHeight s).1 <> Panic.
Proof.
  intros Hwf Hsha. unfold checkTransactionInputs.
  destruct (isCoinBase msgTx); [done |]. unfold sbind, lift.
  destruct (TxSha E msgTx) as [txHash | e |]; try done.
  pose proof (checkInputs_no_panic E txHash txHeight (tx_TxIn msgTx) 0 s Hwf) as Hloop.
  destruct (checkInputs E txHash txHeight (tx_TxIn msgTx) 0 s) as [[t | e |] s1]; try done.
  by destruct (_ <? _).
Qed.

Lemma checkConnectFees_no_panic E transactions txHeight totalFees (s : Store) :
  wellFormedStore s ->
  Forall (fun msgTx => TxSha E msgTx <> Panic) transactions ->
  (checkConnectFees E transactions txHeight totalFees s).1 <> Panic.
Proof.
  revert totalFees s. induction transactions as [| msgTx rest IH];
    intros totalFees s Hwf Hsha; simpl; [done |].
  apply Forall_cons in Hsha as [Hhead Hsha]. unfold sbind.
  pose proof (checkTransactionInputs_no_panic E msgTx txHeight s Hwf Hhead) as Hstep.
  destruct (checkTransactionInputs E msgTx txHeight s) as [[fee | e |] s1] eqn:Hrun; try done.
  destruct (_ <? _); [done |].
  apply IH; [| done]. eapply wellFormedStore_extends; [done |].
  by eapply checkTransactionInputs_extends.
Qed.

Lemma countP2SHInputs_no_panic E txHash ins (s : Store) totalSigOps :
  countP2SHInputs E txHash ins s totalSigOps <> Panic.
Proof.
  revert totalSigOps. induction ins as [| txIn rest IH]; intros totalSigOps; simpl; [done |].
  destruct (s !! Hash (PreviousOutpoint txIn)) as [d |]; [| done].
  destruct (err d); [done |]. destruct (tx d) as [t |]; [| done].
  destruct (N.leb_spec (uint32_len (tx_TxOut t)) (Index (PreviousOutpoint txIn))) as [| Hidx];
    [done |].
  pose proof (uint32_len_le (tx_TxOut t)) as Hle.
  assert (Hlt : (N.to_nat (Index (PreviousOutpoint txIn)) < length (tx_TxOut t))%nat) by lia.
  destruct (lookup_lt_is_Some_2 (tx_TxOut t) _ Hlt) as [o ->].
  destruct (negb _); [apply IH |]. destruct (_ <? _); [done | apply IH].
Qed.

Lemma checkConnectSigOps_no_panic E enforce transactions i (s : Store) totalSigOps :
  Forall (fun msgTx => TxSha E msgTx <> Panic) transactions ->
  checkConnectSigOps E enforce transactions i s totalSigOps <> Panic.
Proof.
  revert i totalSigOps. induction transactions as [| msgTx rest IH];
    intros i totalSigOps Hsha; simpl; [done |].
  apply Forall_cons in Hsha as [Hhead Hsha].
  destruct enforce.
  - unfold countP2SHSigOps. destruct (i =? 0)%nat; simpl.
    + destruct (_ || _); [done | by apply IH].
    + destruct (TxSha E msgTx) as [txHash | e |]; try done. simpl.
      pose proof (countP2SHInputs_no_panic E txHash (tx_TxIn msgTx) s 0) as Hp.
      destruct (countP2SHInputs E txHash (tx_TxIn msgTx) s 0); try done. simpl.
      destruct (_ || _); [done | by apply IH].
  - simpl. destruct (_ || _); [done | by apply IH].
Qed.

(** X5.  On a store whose entries each hold a transaction and one spent bit
    per output, and with collaborators that do not panic, the checks of
    [checkConnectBlock] on a block with at least one transaction never
    panic, and they leave such a store; in particular
    [checkTransactionInputs] never indexes out of range on it. *)
Theorem connectWithStore_no_panic (E : Env) (node : blockNode) (block : Block) (s : Store) :
  wellFormedStore s ->
  Transactions block <> [] ->
  Forall (fun msgTx => TxSha E msgTx <> Panic) (Transactions block) ->
  (forall s', checkBlockScripts E block s' <> Panic) ->
  (connectWithStore E node block s).1.1 <> Panic /\
  wellFormedStore (connectWithStore E node block s).1.2 /\
  (forall msgTx txHeight, TxSha E msgTx <> Panic ->
     (checkTransactionInputs E msgTx txHeight s).1 <> Panic).
Proof.
  intros Hwf Htxs Hsha Hscripts. split; [| split].
  - unfold connectWithStore.
    pose proof (checkConnectSigOps_no_panic E (enforceBIP0016 E node) (Transactions block)
                  0 s 0 Hsha) as Hsig.
    destruct (checkConnectSigOps _ _ _ _ _ _); try done.
    pose proof (checkConnectFees_no_panic E (Transactions block) (height node) 0 s Hwf Hsha)
      as Hfees.
    destruct (checkConnectFees _ _ _ _ _) as [[totalFees | e |] s1]; try done.
    unfold checkCoinbaseCap. destruct (Transactions block); [done |].
    destruct (_ <? _); [done |]. destruct (runScripts E node); [apply Hscripts | done].
  - destruct (connectWithStore E node block s) as [[v s'] cs] eqn:Hrun. simpl.
    eapply wellFormedStore_extends; [done |]. by eapply connectWithStore_extends.
  - intros msgTx txHeight Hm. by apply checkTransactionInputs_no_panic.
Qed.

Lemma exampleStore_wellFormed : wellFormedStore exampleStore.
Proof.
  intros k d Hd. unfold exampleStore in Hd.
  repeat (apply lookup_insert_Some in Hd as [[_ <-] | [_ Hd]];
          [eexists; split; reflexivity |]).
  by rewrite lookup_empty in Hd.
Qed.

Lemma connectWithStore_no_panic_witness :
  (connectWithStore (exampleEnv exampleStore) capNode (capBlock 2500000100)
     exampleStore).1.1 <> Panic /\
  (* an entry without a transaction is dereferenced all the same *)
  (checkTransactionInputs (exampleEnv brokenStore) spendA 200 brokenStore).1 = Panic.
Proof.
  split; [| reflexivity].
  apply (connectWithStore_no_panic (exampleEnv exampleStore) capNode
           (capBlock 2500000100) exampleStore exampleStore_wellFormed).
  - discriminate.
  - repeat constructor; discriminate.
  - discriminate.
Defined.

(** ** Accumulators with an overflow check *)

(** One checked addition: on an accumulator that is not negative, the test
    "new < last" lets through exactly the additions of a non-negative amount
    that do not wrap. *)
Lemma wrap64_accumulate total c :
  0 <= total < 2 ^ 63 -> isInt c ->
  (wrap64 (total + c) < total <-> c < 0 \/ 2 ^ 63 <= total + c) /\
  (~ wrap64 (total + c) < total -> wrap64 (total + c) = total + c).
Proof.
  unfold isInt. intros Htot Hc.
  destruct (Z_lt_le_dec c 0).
  - rewrite wrap64_id by lia. lia.
  - destruct (Z_lt_le_dec (total + c) (2 ^ 63)).
    + rewrite wrap64_id by lia. lia.
    + rewrite wrap64_overflow by lia. lia.
Qed.

Lemma wrap64_isInt z : isInt (wrap64 z).
Proof. apply wrap64_range. Qed.

(** ** countP2SHSigOps *)

Lemma Zsum_map_cons {A} (f : A -> Z) x l : Zsum (map f (x :: l)) = f x + Zsum (map f l).
Proof. reflexivity. Qed.

Lemma p2shSigOps_resolved E (s : Store) txIn d t o :
  s !! Hash (PreviousOutpoint txIn) = Some d ->
  tx d = Some t ->
  tx_TxOut t !! N.to_nat (Index (PreviousOutpoint txIn)) = Some o ->
  p2shSigOps E s txIn =
    if IsPayToScriptHash E (PkScript o)
    then GetPreciseSigOpCount E (SignatureScript txIn) (PkScript o) true
    else 0.
Proof.
  intros Hd Ht Ho. unfold p2shSigOps, inputScript.
  rewrite Hd. simpl. rewrite Ht. simpl. by rewrite Ho.
Qed.

Lemma countP2SHInputs_Ok E txHash ins (s : Store) totalSigOps n :
  Forall (fun txIn => forall pkScript,
            isInt (GetPreciseSigOpCount E (SignatureScript txIn) pkScript true)) ins ->
  0 <= totalSigOps < 2 ^ 63 ->
  countP2SHInputs E txHash ins s totalSigOps = Ok n ->
  Forall (resolvable s) ins /\
  Forall (fun txIn => 0 <= p2shSigOps E s txIn) ins /\
  n = totalSigOps + Zsum (map (p2shSigOps E s) ins) /\ 0 <= n < 2 ^ 63.
Proof.
  revert totalSigOps n.
  induction ins as [| txIn rest IH]; intros totalSigOps n Hint Htot.
  - simpl. intros [= <-]. repeat split; try constructor; lia.
  - apply Forall_cons in Hint as [Hhead Hint].
    rewrite Zsum_map_cons. cbn [countP2SHInputs].
    destruct (s !! Hash (PreviousOutpoint txIn)) as [d |] eqn:Hd; [| done].
    destruct (err d) eqn:Herr; [done |]. destruct (tx d) as [t |] eqn:Ht; [| done].
    destruct (N.leb_spec (uint32_len (tx_TxOut t)) (Index (PreviousOutpoint txIn))) as [| Hidx];
      [done |].
    destruct (tx_TxOut t !! N.to_nat (Index (PreviousOutpoint txIn))) as [o |] eqn:Ho;
      [| done].
    assert (Hres : resolvable s txIn) by (by exists d, t).
    pose proof (p2shSigOps_resolved E s txIn d t o Hd Ht Ho) as Hp. rewrite Hp.
    destruct (IsPayToScriptHash E (PkScript o)); cbn [negb].
    + unfold wrapInt.
      destruct (Z.ltb_spec
                  (wrap64 (totalSigOps + GetPreciseSigOpCount E (SignatureScript txIn)
                                           (PkScript o) true)) totalSigOps) as [| Hge];
        [done |].
      destruct (wrap64_accumulate totalSigOps
                  (GetPreciseSigOpCount E (SignatureScript txIn) (PkScript o) true)
                  Htot (Hhead _)) as [Hiff Hid].
      assert (Hfits : ~ (GetPreciseSigOpCount E (SignatureScript txIn) (PkScript o) true < 0 \/
                         2 ^ 63 <= totalSigOps + GetPreciseSigOpCount E (SignatureScript txIn)
                                                   (PkScript o) true))
        by (intros Hbad; apply Hiff in Hbad; lia).
      rewrite Hid by lia.
      intros Hrest. apply IH in Hrest as (Hall & Hpos & Hn & Hrange); [| done | lia].
      repeat split; try lia; constructor; try done. rewrite Hp. lia.
    + intros Hrest. apply IH in Hrest as (Hall & Hpos & Hn & Hrange); [| done | lia].
      repeat split; try lia; constructor; try done. rewrite Hp. lia.
Qed.

(** X6.  [countP2SHSigOps] returns 0 for a coinbase.  For another
    transaction, with a precise counter that returns a Go [int], a count it
    returns is the exact sum, over the inputs that spend a pay-to-script-hash
    output, of the precise counts of their signature scripts: every input was
    found in the store with no error, a transaction and the index in range;
    no count was negative and the sum did not wrap.  Unlike
    [checkTransactionInputs], it answers an unusable entry with an error: it
    panics only if [TxSha] does. *)
Theorem countP2SHSigOps_exact (E : Env) (msgTx : MsgTx) (s : Store) :
  countP2SHSigOps E msgTx true s = Ok 0 /\
  (Forall (fun txIn => forall pkScript,
             isInt (GetPreciseSigOpCount E (SignatureScript txIn) pkScript true))
          (tx_TxIn msgTx) ->
   forall n, countP2SHSigOps E msgTx false s = Ok n ->
     Forall (resolvable s) (tx_TxIn msgTx) /\
     Forall (fun txIn => 0 <= p2shSigOps E s txIn) (tx_TxIn msgTx) /\
     n = Zsum (map (p2shSigOps E s) (tx_TxIn msgTx)) /\ 0 <= n < 2 ^ 63) /\
  (TxSha E msgTx <> Panic -> forall isCoinBaseTx,
     countP2SHSigOps E msgTx isCoinBaseTx s <> Panic).
Proof.
  split; [done |]. split.
  - intros Hint n. unfold countP2SHSigOps.
    destruct (TxSha E msgTx) as [txHash | e |]; try done. simpl.
    intros Hrun. apply countP2SHInputs_Ok in Hrun as (? & ? & -> & ?); [| done | lia].
    repeat split; try done; lia.
  - intros Hsha [|]; [done |]. unfold countP2SHSigOps.
    destruct (TxSha E msgTx) as [txHash | e |]; try done. simpl.
    apply countP2SHInputs_no_panic.
Qed.

Lemma countP2SHSigOps_exact_witness :
  countP2SHSigOps (exampleEnv exampleStore) p2shSpend false exampleStore = Ok 20020 /\
  20020 = Zsum (map (p2shSigOps (exampleEnv exampleStore) exampleStore) (tx_TxIn p2shSpend)) /\
  countP2SHSigOps (exampleEnv brokenStore) spendA false brokenStore =
    Err (Errorf (InputNotFound 1001%N 1007%N)).
Proof.
  assert (Hrun : countP2SHSigOps (exampleEnv exampleStore) p2shSpend false exampleStore
                 = Ok 20020) by (vm_compute; reflexivity).
  split; [exact Hrun |]. split; [| reflexivity].
  assert (Hint : Forall (fun txIn => forall pkScript,
            isInt (GetPreciseSigOpCount (exampleEnv exampleStore)
                     (SignatureScript txIn) pkScript true)) (tx_TxIn p2shSpend)).
  { repeat constructor; vm_compute; discriminate. }
  exact (proj1 (proj2 (proj2 (proj1 (proj2
           (countP2SHSigOps_exact (exampleEnv exampleStore) p2shSpend exampleStore))
           Hint 20020 Hrun)))).
Defined.

(** ** Counting signature operations *)

Lemma fold_wrapInt_isInt {A} (f : A -> Z) l acc :
  isInt acc -> isInt (fold_left (fun a x => wrapInt (a + f x)) l acc).
Proof.
  revert acc. induction l as [| x l IH]; intros acc Hacc; simpl; [done |].
  apply IH, wrap64_isInt.
Qed.

Lemma fold_wrapInt_exact {A} (f : A -> Z) l acc :
  0 <= acc ->
  Forall (fun c => 0 <= c) (map f l) ->
  acc + Zsum (map f l) < 2 ^ 63 ->
  fold_left (fun a x => wrapInt (a + f x)) l acc = acc + Zsum (map f l).
Proof.
  revert acc. induction l as [| x l IH]; intros acc Hacc Hpos Hfit.
  - simpl. lia.
  - rewrite Zsum_map_cons in *. simpl in Hpos. apply Forall_cons in Hpos as [Hx Hpos].
    assert (0 <= Zsum (map f l)).
    { clear -Hpos. induction Hpos as [| c cs Hc _ IH]; simpl; [done | lia]. }
    simpl. unfold wrapInt. rewrite wrap64_id by lia.
    rewrite IH; [lia | lia | done | lia].
Qed.

Lemma countSigOps_isInt E msgTx : isInt (countSigOps E msgTx).
Proof.
  unfold countSigOps. apply fold_wrapInt_isInt, fold_wrapInt_isInt. unfold isInt. lia.
Qed.

Lemma Zsum_app l1 l2 : Zsum (l1 ++ l2) = Zsum l1 + Zsum l2.
Proof. induction l1 as [| x l1 IH]; simpl; [done | lia]. Qed.

Lemma Zsum_nonneg l : Forall (fun c => 0 <= c) l -> 0 <= Zsum l.
Proof. induction 1 as [| c cs Hc _ IH]; simpl; [done | lia]. Qed.

(** X7.  [countSigOps] always returns a Go [int]; when no script count is
    negative and their sum fits an [int], it is the sum of [GetSigOpCount]
    over the signature scripts of the inputs and the public key scripts of
    the outputs.  The function itself checks nothing: a larger sum wraps. *)
Theorem countSigOps_sum (E : Env) (msgTx : MsgTx) :
  isInt (countSigOps E msgTx) /\
  (Forall (fun c => 0 <= c) (scriptCounts E msgTx) ->
   Zsum (scriptCounts E msgTx) < 2 ^ 63 ->
   countSigOps E msgTx = Zsum (scriptCounts E msgTx)).
Proof.
  split; [apply countSigOps_isInt |].
  unfold scriptCounts, countSigOps. intros Hpos Hfit.
  apply Forall_app in Hpos as [Hins Houts].
  rewrite Zsum_app in Hfit.
  pose proof (Zsum_nonneg _ Hins). pose proof (Zsum_nonneg _ Houts).
  rewrite (fold_wrapInt_exact (fun txIn => GetSigOpCount E (SignatureScript txIn)))
    by (done || lia).
  rewrite (fold_wrapInt_exact (fun txOut => GetSigOpCount E (PkScript txOut)))
    by (done || lia).
  rewrite Zsum_app. lia.
Qed.

Lemma checkSanitySigOps_Ok E transactions totalSigOps :
  0 <= totalSigOps < 2 ^ 63 ->
  transactions <> [] \/ totalSigOps <= maxSigOpsPerBlock E ->
  checkSanitySigOps E transactions totalSigOps = Ok tt ->
  Forall (fun msgTx => 0 <= countSigOps E msgTx) transactions /\
  totalSigOps + Zsum (map (countSigOps E) transactions) <= maxSigOpsPerBlock E.
Proof.
  revert totalSigOps. induction transactions as [| msgTx rest IH]; intros totalSigOps Htot Hne.
  - simpl. intros _. split; [constructor |]. destruct Hne; [done | lia].
  - rewrite Zsum_map_cons. cbn [checkSanitySigOps]. unfold wrapInt.
    destruct (wrap64_accumulate totalSigOps (countSigOps E msgTx) Htot (countSigOps_isInt _ _))
      as [Hiff Hid].
    destruct (Z.ltb_spec (wrap64 (totalSigOps + countSigOps E msgTx)) totalSigOps) as [| Hge];
      [done |].
    assert (Hfits : ~ (countSigOps E msgTx < 0 \/ 2 ^ 63 <= totalSigOps + countSigOps E msgTx))
      by (intros Hbad; apply Hiff in Hbad; lia).
    rewrite Hid by lia.
    destruct (Z.ltb_spec (maxSigOpsPerBlock E) (totalSigOps + countSigOps E msgTx)); [done |].
    cbn [orb]. intros Hrest. apply IH in Hrest as [Hpos Hsum]; [| lia | right; lia].
    split; [constructor; [lia | done] | lia].
Qed.

Lemma checkSanitySigOps_complete E transactions totalSigOps :
  maxSigOpsPerBlock E < 2 ^ 63 ->
  0 <= totalSigOps ->
  Forall (fun msgTx => 0 <= countSigOps E msgTx) transactions ->
  totalSigOps + Zsum (map (countSigOps E) transactions) <= maxSigOpsPerBlock E ->
  checkSanitySigOps E transactions totalSigOps = Ok tt.
Proof.
  intros Hmax. revert totalSigOps.
  induction transactions as [| msgTx rest IH]; intros totalSigOps Htot Hpos Hsum; [done |].
  rewrite Zsum_map_cons in Hsum. apply Forall_cons in Hpos as [Hhead Hpos].
  assert (0 <= Zsum (map (countSigOps E) rest)).
  { apply Zsum_nonneg. by apply Forall_fmap. }
  cbn [checkSanitySigOps]. unfold wrapInt. rewrite wrap64_id by lia.
  destruct (Z.ltb_spec (totalSigOps + countSigOps E msgTx) totalSigOps); [lia |].
  destruct (Z.ltb_spec (maxSigOpsPerBlock E) (totalSigOps + countSigOps E msgTx)); [lia |].
  cbn [orb]. apply IH; [lia | done | lia].
Qed.

Lemma checkSanitySigOps_cases E transactions totalSigOps :
  checkSanitySigOps E transactions totalSigOps = Ok tt \/
  exists n, checkSanitySigOps E transactions totalSigOps = Err (RuleError (TooManySigOps n)).
Proof.
  revert totalSigOps. induction transactions as [| msgTx rest IH]; intros totalSigOps;
    [by left |].
  cbn [checkSanitySigOps]. destruct (_ || _); [right; by eexists | apply IH].
Qed.

(** X8.  The sig-op loop of [checkBlockSanity] accepts a non-empty list of
    transactions only if no transaction has a negative count and the sum of
    the counts is at most [maxSigOpsPerBlock]; with a limit that fits an
    [int] it accepts every such list, so a sum of exactly the limit passes;
    and whatever it refuses, it refuses with the too-many-signature-operations
    error. *)
Theorem checkSanitySigOps_sum (E : Env) (transactions : list MsgTx) :
  (transactions <> [] ->
   checkSanitySigOps E transactions 0 = Ok tt ->
   Forall (fun msgTx => 0 <= countSigOps E msgTx) transactions /\
   Zsum (map (countSigOps E) transactions) <= maxSigOpsPerBlock E) /\
  (maxSigOpsPerBlock E < 2 ^ 63 ->
   Forall (fun msgTx => 0 <= countSigOps E msgTx) transactions ->
   Zsum (map (countSigOps E) transactions) <= maxSigOpsPerBlock E ->
   checkSanitySigOps E transactions 0 = Ok tt) /\
  (transactions <> [] ->
   maxSigOpsPerBlock E < Zsum (map (countSigOps E) transactions) ->
   exists n, checkSanitySigOps E transactions 0 = Err (RuleError (TooManySigOps n))).
Proof.
  split; [| split].
  - intros Hne Hrun. apply checkSanitySigOps_Ok in Hrun as [Hpos Hsum]; [| lia | by left].
    split; [done | lia].
  - intros Hmax Hpos Hsum. apply checkSanitySigOps_complete; [done | lia | done | lia].
  - intros Hne Hover.
    destruct (checkSanitySigOps_cases E transactions 0) as [Hok | Herr]; [| done].
    apply checkSanitySigOps_Ok in Hok as [_ Hsum]; [lia | lia | by left].
Qed.

Lemma countSigOps_sum_witness :
  Forall (fun c => 0 <= c) (scriptCounts (exampleEnv exampleStore) (sigOpsTx 3)) /\
  countSigOps (exampleEnv exampleStore) (sigOpsTx 3) = 3.
Proof.
  assert (Hpos : Forall (fun c => 0 <= c) (scriptCounts (exampleEnv exampleStore) (sigOpsTx 3)))
    by (repeat constructor; vm_compute; discriminate).
  split; [exact Hpos |].
  rewrite (proj2 (countSigOps_sum (exampleEnv exampleStore) (sigOpsTx 3)) Hpos);
    reflexivity.
Defined.

Lemma checkSanitySigOps_sum_witness :
  (* exactly the limit passes, one more does not *)
  checkSanitySigOps (exampleEnv exampleStore) [sigOpsTx 20000] 0 = Ok tt /\
  exists n, checkSanitySigOps (exampleEnv exampleStore) [sigOpsTx 20001] 0
            = Err (RuleError (TooManySigOps n)).
Proof.
  split.
  - apply (proj1 (proj2 (checkSanitySigOps_sum (exampleEnv exampleStore) [sigOpsTx 20000]))).
    + reflexivity.
    + repeat constructor. vm_compute. discriminate.
    + vm_compute. discriminate.
  - apply (proj2 (proj2 (checkSanitySigOps_sum (exampleEnv exampleStore) [sigOpsTx 20001]))).
    + discriminate.
    + vm_compute. reflexivity.
Defined.

(** ** What checkBlockSanity accepts *)

Lemma checkProofOfWork_iff E block :
  checkProofOfWork E block = Ok tt <->
  exists blockHash,
    BlockSha E block = Ok blockHash /\
    0 < CompactToBig E (Bits (Header block)) <= powLimit E /\
    ShaHashToBig E blockHash <= CompactToBig E (Bits (Header block)).
Proof.
  unfold checkProofOfWork.
  destruct (Z.leb_spec (CompactToBig E (Bits (Header block))) 0).
  { split; [done |]. intros (? & _ & ? & _). lia. }
  destruct (Z.ltb_spec (powLimit E) (CompactToBig E (Bits (Header block)))).
  { split; [done |]. intros (? & _ & ? & _). lia. }
  destruct (BlockSha E block) as [blockHash | e |]; cbn [rbind];
    try (split; [done | by intros (? & ? & _)]).
  destruct (Z.ltb_spec (CompactToBig E (Bits (Header block))) (ShaHashToBig E blockHash)).
  - split; [done |]. intros (h & [= <-] & _ & ?). lia.
  - split; [| done]. intros _. exists blockHash. repeat split; lia.
Qed.

Lemma checkSingleCoinbase_iff rest i :
  checkSingleCoinbase rest i = Ok tt <-> Forall (fun msgTx => isCoinBase msgTx = false) rest.
Proof.
  revert i. induction rest as [| msgTx rest IH]; intros i; simpl.
  - split; [constructor | done].
  - destruct (isCoinBase msgTx) eqn:Hcb.
    + split; [done |]. intros Hall. apply Forall_cons in Hall as [? _]. congruence.
    + rewrite IH. split; [by constructor |]. intros Hall. by apply Forall_cons in Hall as [_ ?].
Qed.

Lemma checkAllTransactionsSane_iff transactions :
  checkAllTransactionsSane transactions = Ok tt <->
  Forall (fun msgTx => checkTransactionSanity msgTx = Ok tt) transactions.
Proof.
  induction transactions as [| msgTx rest IH]; cbn [checkAllTransactionsSane].
  - split; [constructor | done].
  - destruct (checkTransactionSanity msgTx) as [[] | e |] eqn:Hsane; cbn [rbind].
    + rewrite IH. split; [by constructor |]. intros Hall. by apply Forall_cons in Hall as [_ ?].
    + split; [done |]. intros Hall. apply Forall_cons in Hall as [? _]. congruence.
    + split; [done |]. intros Hall. apply Forall_cons in Hall as [? _]. congruence.
Qed.

Lemma checkDuplicateHashes_iff (txShas : list ShaHash) (seen : gset N) :
  checkDuplicateHashes txShas seen = Ok tt <->
  NoDup txShas /\ forall h, h ∈ txShas -> h ∉ seen.
Proof.
  revert seen. induction txShas as [| h rest IH]; intros seen; simpl.
  - split; [| done]. intros _. split; [constructor |]. intros ? Hin. by apply elem_of_nil in Hin.
  - destruct (decide (h ∈ seen)) as [Hseen | Hnew].
    + split; [done |]. intros [_ Hfresh]. destruct (Hfresh h); [apply list_elem_of_here | done].
    + rewrite IH. split.
      * intros [Hnodup Hfresh]. split.
        -- constructor; [| done]. intros Hin. apply Hfresh in Hin.
           apply Hin, elem_of_union_l, elem_of_singleton. done.
        -- intros y Hy. apply elem_of_cons in Hy as [-> | Hy]; [done |].
           apply Hfresh in Hy. intros Hs. apply Hy, elem_of_union_r, Hs.
      * intros [Hnodup Hfresh]. apply NoDup_cons in Hnodup as [Hhead Hnodup].
        split; [done |]. intros y Hy Hs.
        apply elem_of_union in Hs as [Hs | Hs].
        -- apply elem_of_singleton in Hs as ->. done.
        -- apply (Hfresh y); [by apply list_elem_of_further | done].
Qed.

Lemma checkBlockSanity_sound E block :
  checkBlockSanity E block = Ok tt -> saneBlock E block.
Proof.
  unfold checkBlockSanity, saneBlock. cbv zeta. intros Hrun.
  destruct (checkProofOfWork E block) as [[] | e |] eqn:Hpow; try done.
  apply checkProofOfWork_iff in Hpow as (blockHash & Hsha & Htarget & Hhash).
  cbn [rbind] in Hrun.
  destruct (Z.ltb_spec (now E + 2 * 3600) (Timestamp (Header block))) as [| Htime];
    [done |].
  destruct (Transactions block) as [| coinbaseTx others] eqn:Htxs; [done |].
  destruct (isCoinBase coinbaseTx) eqn:Hcb; [| done]. cbn [negb] in Hrun.
  destruct (checkSingleCoinbase others 0) as [[] | e |] eqn:Hsingle; try done.
  apply checkSingleCoinbase_iff in Hsingle. cbn [rbind] in Hrun.
  destruct (checkAllTransactionsSane (coinbaseTx :: others)) as [[] | e |] eqn:Hsane;
    try done.
  apply checkAllTransactionsSane_iff in Hsane. cbn [rbind] in Hrun.
  destruct (last (BuildMerkleTreeStore E block)) as [root |] eqn:Hroot; [| done].
  destruct (N.eqb_spec (MerkleRoot (Header block)) root) as [<- |]; [| done].
  cbn [negb] in Hrun.
  destruct (TxShas E block) as [txShas | e |] eqn:Hshas; try done. cbn [rbind] in Hrun.
  destruct (checkDuplicateHashes txShas ∅) as [[] | e |] eqn:Hdup; try done.
  apply checkDuplicateHashes_iff in Hdup as [Hnodup _]. cbn [rbind] in Hrun.
  exists coinbaseTx, others, blockHash, txShas. repeat split; try done; lia.
Qed.

(** X9.  [checkBlockSanity] accepts exactly the blocks whose proof of work
    holds (target positive and at most [powLimit], block hash at most the
    target), whose timestamp is at most two hours ahead, that start with a
    coinbase followed by transactions that are not coinbases, whose
    transactions all pass [checkTransactionSanity], whose merkle root is the
    last entry of the merkle tree, whose transaction hashes are pairwise
    distinct, and whose sig-op loop succeeds. *)
Theorem checkBlockSanity_iff (E : Env) (block : Block) :
  checkBlockSanity E block = Ok tt <-> saneBlock E block.
Proof.
  split; [apply checkBlockSanity_sound |].
  unfold checkBlockSanity, saneBlock. cbv zeta.
  intros (coinbaseTx & others & blockHash & txShas & Hsha & Htarget & Hhash & Htime
          & Htxs & Hcb & Hsingle & Hsane & Hroot & Hshas & Hnodup & Hsig).
  assert (checkProofOfWork E block = Ok tt) as ->
    by (apply checkProofOfWork_iff; by exists blockHash).
  cbn [rbind].
  destruct (Z.ltb_spec (now E + 2 * 3600) (Timestamp (Header block))); [lia |].
  rewrite Htxs in *. rewrite Hcb. cbn [negb].
  rewrite (proj2 (checkSingleCoinbase_iff others 0) Hsingle). cbn [rbind].
  rewrite (proj2 (checkAllTransactionsSane_iff (coinbaseTx :: others)) Hsane). cbn [rbind].
  rewrite Hroot, N.eqb_refl. cbn [negb]. rewrite Hshas. cbn [rbind].
  assert (checkDuplicateHashes txShas ∅ = Ok tt) as ->.
  { apply checkDuplicateHashes_iff. split; [done |]. intros h _. apply not_elem_of_empty. }
  cbn [rbind]. exact Hsig.
Qed.

Lemma checkBlockSanity_iff_witness : saneBlock (exampleEnv exampleStore) wrongHeightBlock.
Proof.
  apply (proj1 (checkBlockSanity_iff (exampleEnv exampleStore) wrongHeightBlock)).
  vm_compute. reflexivity.
Defined.

(** ** What checkBIP0030 tolerates *)

Lemma isTransactionSpent_iff d :
  isTransactionSpent d = true <-> Forall (fun b => b = true) (spent d).
Proof.
  unfold isTransactionSpent. induction (spent d) as [| b bits IH]; simpl.
  - split; [constructor | done].
  - destruct b; simpl.
    + rewrite IH. split; [by constructor |]. intros Hall. by apply Forall_cons in Hall as [_ ?].
    + split; [done |]. intros Hall. by apply Forall_cons in Hall as [? _].
Qed.

Lemma checkFetchedDuplicates_iff txResults :
  checkFetchedDuplicates txResults = Ok tt <-> Forall overwritable txResults.
Proof.
  induction txResults as [| d rest IH]; cbn [checkFetchedDuplicates].
  - split; [constructor | done].
  - unfold overwritable at 1.
    destruct (err d) as [e |] eqn:Herr.
    + destruct e; try (split; [done |]; intros Hall; apply Forall_cons in Hall as [Hd _];
                       unfold overwritable in Hd; rewrite Herr in Hd;
                       destruct Hd as [? | [? _]]; done).
      rewrite IH. split.
      * intros Hall. constructor; [| done]. by left.
      * intros Hall. by apply Forall_cons in Hall as [_ ?].
    + destruct (isTransactionSpent d) eqn:Hspent; cbn [negb].
      * rewrite IH. apply isTransactionSpent_iff in Hspent. split.
        -- intros Hall. constructor; [| done]. by right.
        -- intros Hall. by apply Forall_cons in Hall as [_ ?].
      * split; [done |]. intros Hall. apply Forall_cons in Hall as [Hd _].
        unfold overwritable in Hd. rewrite Herr in Hd. destruct Hd as [? | [_ Hd]]; [done |].
        apply isTransactionSpent_iff in Hd. congruence.
Qed.

Lemma checkFetchedDuplicates_first pre d post :
  Forall overwritable pre ->
  err d = None -> false ∈ spent d ->
  checkFetchedDuplicates (pre ++ d :: post) =
    Err (RuleError (OverwriteUnspent (txd_hash d) (blockHeight d))).
Proof.
  intros Hpre Herr Hunspent. induction Hpre as [| x pre Hx _ IH].
  - cbn [app checkFetchedDuplicates]. rewrite Herr.
    destruct (isTransactionSpent d) eqn:Hspent; [| done].
    apply isTransactionSpent_iff in Hspent.
    rewrite Forall_forall in Hspent. by apply Hspent in Hunspent.
  - cbn [app checkFetchedDuplicates].
    destruct Hx as [-> | [-> Hall]]; [exact IH |].
    apply isTransactionSpent_iff in Hall. rewrite Hall. exact IH.
Qed.

(** X10.  When the hashes of the block can be listed, [checkBIP0030] asks the
    chain for them in one call, hands on an error of that call, and
    otherwise passes exactly when every earlier copy is missing or has all
    its outputs spent (a copy with an empty bitmap counts as spent); the
    first earlier copy with an unspent output is the one reported. *)
Theorem checkBIP0030_iff (E : Env) (node : blockNode) (block : Block)
    (fetchList : list ShaHash) :
  TxShas E block = Ok fetchList ->
  (checkBIP0030 E node block).2 = [CallFetchTxList node fetchList] /\
  (forall e, fetchTxList E node fetchList = Err e -> (checkBIP0030 E node block).1 = Err e) /\
  (forall txResults, fetchTxList E node fetchList = Ok txResults ->
     ((checkBIP0030 E node block).1 = Ok tt <-> Forall overwritable txResults) /\
     (forall pre d post,
        txResults = pre ++ d :: post -> Forall overwritable pre ->
        err d = None -> false ∈ spent d ->
        (checkBIP0030 E node block).1 =
          Err (RuleError (OverwriteUnspent (txd_hash d) (blockHeight d))))).
Proof.
  intros Hshas. unfold checkBIP0030. rewrite Hshas. cbn [fst snd].
  split; [done |]. split.
  - by intros e ->.
  - intros txResults ->. cbn [rbind]. split; [apply checkFetchedDuplicates_iff |].
    intros pre d post -> Hpre Herr Hunspent. by apply checkFetchedDuplicates_first.
Qed.

Lemma checkBIP0030_iff_witness :
  (checkBIP0030 (withTxShas (exampleEnv exampleStore) (TxShas (exampleEnv exampleStore))
                   duplicatingChain) capNode (capBlock 2500000100)).1 =
    Err (RuleError (OverwriteUnspent 1000%N 10)) /\
  ((checkBIP0030 (exampleEnv exampleStore) capNode (capBlock 2500000100)).1 = Ok tt <->
   Forall overwritable [missingTx 1000%N; missingTx 1001%N]).
Proof.
  split.
  - exact (proj2 (proj2 (proj2 (checkBIP0030_iff
             (withTxShas (exampleEnv exampleStore) (TxShas (exampleEnv exampleStore))
                duplicatingChain) capNode (capBlock 2500000100) [1000%N; 1001%N] eq_refl))
             [unspentTx 1000%N; unspentTx 1001%N] eq_refl)
             [] (unspentTx 1000%N) [unspentTx 1001%N] eq_refl (Forall_nil_2 _) eq_refl
             (list_elem_of_here _ _)).
  - exact (proj1 (proj2 (proj2 (checkBIP0030_iff (exampleEnv exampleStore) capNode
             (capBlock 2500000100) [1000%N; 1001%N] eq_refl))
             [missingTx 1000%N; missingTx 1001%N] eq_refl)).
Defined.

(** ** Script verification comes last *)



(** ** The two blocks exempt from BIP30 *)

Lemma countP2SHInputs_withTxShas E a b txHash ins (s : Store) totalSigOps :
  countP2SHInputs (withTxShas E a b) txHash ins s totalSigOps =
  countP2SHInputs E txHash ins s totalSigOps.
Proof.
  revert totalSigOps. induction ins as [| txIn rest IH]; intros totalSigOps; [done |].
  cbn [countP2SHInputs]. cbn [withTxShas IsPayToScriptHash GetPreciseSigOpCount].
  destruct (s !! Hash (PreviousOutpoint txIn)) as [d |]; [| done].
  destruct (err d); [done |]. destruct (tx d) as [t |]; [| done].
  destruct (_ <=? _)%N; [done |].
  destruct (tx_TxOut t !! _) as [o |]; [| done].
  destruct (negb _); [apply IH |]. destruct (_ <? _); [done | apply IH].
Qed.

Lemma checkConnectSigOps_withTxShas E a b enforce transactions i (s : Store) totalSigOps :
  checkConnectSigOps (withTxShas E a b) enforce transactions i s totalSigOps =
  checkConnectSigOps E enforce transactions i s totalSigOps.
Proof.
  revert i totalSigOps. induction transactions as [| msgTx rest IH]; intros i totalSigOps;
    [done |].
  cbn [checkConnectSigOps].
  change (countSigOps (withTxShas E a b) msgTx) with (countSigOps E msgTx).
  change (maxSigOpsPerBlock (withTxShas E a b)) with (maxSigOpsPerBlock E).
  assert (countP2SHSigOps (withTxShas E a b) msgTx (i =? 0)%nat s
          = countP2SHSigOps E msgTx (i =? 0)%nat s) as ->.
  { unfold countP2SHSigOps. destruct (i =? 0)%nat; [done |].
    change (TxSha (withTxShas E a b) msgTx) with (TxSha E msgTx).
    destruct (TxSha E msgTx); cbn [rbind]; try done. apply countP2SHInputs_withTxShas. }
  destruct enforce.
  - destruct (countP2SHSigOps E msgTx (i =? 0)%nat s); cbn [rbind]; try done.
    destruct (_ || _); [done | apply IH].
  - cbn [rbind]. destruct (_ || _); [done | apply IH].
Qed.

Lemma checkInputs_withTxShas E a b txHash txHeight ins total (s : Store) :
  checkInputs (withTxShas E a b) txHash txHeight ins total s =
  checkInputs E txHash txHeight ins total s.
Proof.
  revert total s. induction ins as [| txIn rest IH]; intros total s; [done |].
  cbn [checkInputs]. unfold sbind.
  change (checkInput (withTxShas E a b) txHash txHeight txIn total s)
    with (checkInput E txHash txHeight txIn total s).
  destruct (checkInput E txHash txHeight txIn total s) as [[t | e |] s1]; [apply IH | done | done].
Qed.

Lemma checkConnectFees_withTxShas E a b transactions txHeight totalFees (s : Store) :
  checkConnectFees (withTxShas E a b) transactions txHeight totalFees s =
  checkConnectFees E transactions txHeight totalFees s.
Proof.
  revert totalFees s. induction transactions as [| msgTx rest IH]; intros totalFees s; [done |].
  cbn [checkConnectFees]. unfold sbind.
  assert (checkTransactionInputs (withTxShas E a b) msgTx txHeight s
          = checkTransactionInputs E msgTx txHeight s) as ->.
  { unfold checkTransactionInputs. destruct (isCoinBase msgTx); [done |].
    unfold sbind, lift. change (TxSha (withTxShas E a b) msgTx) with (TxSha E msgTx).
    destruct (TxSha E msgTx); try done. by rewrite checkInputs_withTxShas. }
  destruct (checkTransactionInputs E msgTx txHeight s) as [[fee | e |] s1]; try done.
  destruct (_ <? _); [done | apply IH].
Qed.

Lemma connectWithStore_withTxShas E a b node block (s : Store) :
  connectWithStore (withTxShas E a b) node block s = connectWithStore E node block s.
Proof.
  unfold connectWithStore.
  rewrite checkConnectSigOps_withTxShas, checkConnectFees_withTxShas. reflexivity.
Qed.

(** X12.  [isBIP0030Node] holds of exactly two nodes: height 91842 with the
    hash [block91842Hash] and height 91880 with [block91880Hash].  On them
    [checkConnectBlock] skips the BIP30 check: it never calls [fetchTxList],
    and what the chain holds of earlier copies, or whether the hashes of the
    block can be listed, does not change its outcome. *)
Theorem checkConnectBlock_bip30_exempt (E : Env) (node : blockNode) (block : Block) :
  (isBIP0030Node node = true <->
   (height node = 91842 /\ hash node = block91842Hash) \/
   (height node = 91880 /\ hash node = block91880Hash)) /\
  (isBIP0030Node node = true ->
   (forall n hashes, CallFetchTxList n hashes ∉ calls (checkConnectBlock E node block)) /\
   (forall txShas fetch,
      checkConnectBlock (withTxShas E txShas fetch) node block =
      checkConnectBlock E node block)).
Proof.
  split.
  - unfold isBIP0030Node.
    destruct (Z.eqb_spec (height node) 91842), (N.eqb_spec (hash node) block91842Hash),
      (Z.eqb_spec (height node) 91880), (N.eqb_spec (hash node) block91880Hash);
      cbn [andb]; split; try done; try (intros [[? ?] | [? ?]]; done || lia); auto.
  - intros Hexempt. split.
    + intros n hashes. unfold checkConnectBlock. rewrite Hexempt. cbn [negb].
      destruct (hash node =? GenesisHash E)%N; [apply not_elem_of_nil |].
      destruct (fetchInputTransactions E node block) as [s | e |]; cbn [calls app].
      * destruct (connectWithStore E node block s) as [[v s'] cs] eqn:Hrun. cbn [calls].
        apply connectWithStore_calls in Hrun as [-> | ->];
          intros Hin; repeat (apply elem_of_cons in Hin as [Hin | Hin]; [done |]);
          by apply elem_of_nil in Hin.
      * intros Hin. apply elem_of_cons in Hin as [Hin | Hin]; [done | by apply elem_of_nil in Hin].
      * intros Hin. apply elem_of_cons in Hin as [Hin | Hin]; [done | by apply elem_of_nil in Hin].
    + intros txShas fetch. unfold checkConnectBlock. rewrite Hexempt. cbn [negb].
      change (GenesisHash (withTxShas E txShas fetch)) with (GenesisHash E).
      destruct (hash node =? GenesisHash E)%N; [done |].
      change (fetchInputTransactions (withTxShas E txShas fetch) node block)
        with (fetchInputTransactions E node block).
      destruct (fetchInputTransactions E node block) as [s | e |]; try done.
      by rewrite connectWithStore_withTxShas.
Qed.

Lemma checkConnectBlock_bip30_exempt_witness :
  isBIP0030Node node91842 = true /\
  (* the chain holds unspent copies of the transactions of the block *)
  verdict (checkConnectBlock
             (withTxShas (exampleEnv exampleStore) (TxShas (exampleEnv exampleStore))
                duplicatingChain) node91842 earlyBlock) = Ok tt /\
  verdict (checkConnectBlock
             (withTxShas (exampleEnv exampleStore) (TxShas (exampleEnv exampleStore))
                duplicatingChain) (exampleNode 91842 1289700000) earlyBlock) =
    Err (RuleError (OverwriteUnspent 1000%N 10)).
Proof.
  assert (Hexempt : isBIP0030Node node91842 = true) by reflexivity.
  split; [exact Hexempt |]. split; [| reflexivity].
  rewrite (proj2 (proj2 (checkConnectBlock_bip30_exempt (exampleEnv exampleStore) node91842
                           earlyBlock) Hexempt)).
  reflexivity.
Defined.

(** ** Finalized transactions *)

Lemma forallb_Forall {A} (p : A -> bool) l :
  forallb p l = true <-> Forall (fun x => p x = true) l.
Proof.
  induction l as [| x l IH]; simpl.
  - split; [constructor | done].
  - rewrite andb_true_iff, IH. split.
    + intros [? ?]. by constructor.
    + intros Hall. by apply Forall_cons in Hall.
Qed.

(** X13.  A transaction is finalized exactly when its lock time is 0, or
    lies below the height of the block (lock times under 500000000) or
    below the time of the block (lock times from 500000000 on), or every
    input has the maximal sequence number.  Hence a transaction finalized at
    some height and time stays finalized at every later height and time. *)
Theorem isFinalizedTransaction_monotone (msgTx : MsgTx) :
  (forall blockHeight blockTime,
     isFinalizedTransaction msgTx blockHeight blockTime = true <->
     LockTime msgTx = 0%N \/
     ((LockTime msgTx < 500000000)%N /\ Z.of_N (LockTime msgTx) < blockHeight) \/
     ((500000000 <= LockTime msgTx)%N /\ Z.of_N (LockTime msgTx) < blockTime) \/
     Forall (fun txIn => Sequence txIn = MaxUint32) (tx_TxIn msgTx)) /\
  (forall blockHeight blockTime laterHeight laterTime,
     blockHeight <= laterHeight -> blockTime <= laterTime ->
     isFinalizedTransaction msgTx blockHeight blockTime = true ->
     isFinalizedTransaction msgTx laterHeight laterTime = true).
Proof.
  assert (Hiff : forall blockHeight blockTime,
     isFinalizedTransaction msgTx blockHeight blockTime = true <->
     LockTime msgTx = 0%N \/
     ((LockTime msgTx < 500000000)%N /\ Z.of_N (LockTime msgTx) < blockHeight) \/
     ((500000000 <= LockTime msgTx)%N /\ Z.of_N (LockTime msgTx) < blockTime) \/
     Forall (fun txIn => Sequence txIn = MaxUint32) (tx_TxIn msgTx)).
  { intros blockHeight blockTime. unfold isFinalizedTransaction, lockTimeThreshold.
    assert (Hseq : forallb (fun txIn => (Sequence txIn =? MaxUint32)%N) (tx_TxIn msgTx) = true
                   <-> Forall (fun txIn => Sequence txIn = MaxUint32) (tx_TxIn msgTx)).
    { rewrite forallb_Forall. apply Forall_iff. intros txIn. apply N.eqb_eq. }
    destruct (N.eqb_spec (LockTime msgTx) 0) as [| Hnz]; [split; [by left | done] |].
    destruct (N.ltb_spec (LockTime msgTx) 500000000).
    - destruct (Z.ltb_spec (Z.of_N (LockTime msgTx)) blockHeight).
      + split; [| done]. intros _. right. left. by split.
      + rewrite Hseq. split; [by do 3 right |].
        intros [? | [[_ ?] | [[? _] | ?]]]; [done | lia | lia | done].
    - destruct (Z.ltb_spec (Z.of_N (LockTime msgTx)) blockTime).
      + split; [| done]. intros _. right. right. left. by split.
      + rewrite Hseq. split; [by do 3 right |].
        intros [? | [[? _] | [[_ ?] | ?]]]; [done | lia | lia | done]. }
  split; [exact Hiff |].
  intros blockHeight blockTime laterHeight laterTime Hh Ht Hfinal.
  apply Hiff. apply Hiff in Hfinal.
  destruct Hfinal as [? | [[? ?] | [[? ?] | ?]]].
  - by left.
  - right. left. split; [done | lia].
  - right. right. left. split; [done | lia].
  - by do 3 right.
Qed.

Lemma isFinalizedTransaction_monotone_witness :
  isFinalizedTransaction lockedTx 300 1300000000 = false /\
  isFinalizedTransaction lockedTx 301 1300000000 = true /\
  isFinalizedTransaction lockedTx 400 1400000000 = true.
Proof.
  assert (H301 : isFinalizedTransaction lockedTx 301 1300000000 = true) by reflexivity.
  split; [reflexivity |]. split; [exact H301 |].
  apply (proj2 (isFinalizedTransaction_monotone lockedTx) 301 1300000000 400 1400000000);
    [lia | lia | exact H301].
Defined.

(** ** A transaction refused half way *)

(** X14.  [checkTransactionInputs] does not undo its marks: when the inputs
    up to some input pass and that input is refused, the error of that input
    is returned, the later inputs are not looked at, and the outpoints of
    the inputs before it stay marked in the store that is left. *)
Theorem checkTransactionInputs_no_rollback (E : Env) (msgTx : MsgTx) (txHeight : Z)
    (s s2 s3 : Store) (txHash : ShaHash) (pre post : list TxIn) (txIn : TxIn)
    (t : Z) (e : error) :
  isCoinBase msgTx = false ->
  TxSha E msgTx = Ok txHash ->
  tx_TxIn msgTx = pre ++ txIn :: post ->
  checkInputs E txHash txHeight pre 0 s = (Ok t, s2) ->
  checkInput E txHash txHeight txIn t s2 = (Err e, s3) ->
  checkTransactionInputs E msgTx txHeight s = (Err e, s2) /\
  (forall o, o ∈ map PreviousOutpoint pre -> isSpent s2 o) /\
  (forall o, isSpent s2 o -> isSpent s o \/ o ∈ map PreviousOutpoint pre).
Proof.
  intros Hcb Hsha Hins Hpre Hbad.
  pose proof (checkInput_failure_store _ _ _ _ _ _ _ _ Hbad) as Hsame.
  rewrite Hsame in Hbad by done.
  split.
  - unfold checkTransactionInputs. rewrite Hcb, Hsha. unfold sbind, lift.
    rewrite Hins, checkInputs_app, Hpre. cbn [checkInputs]. unfold sbind. by rewrite Hbad.
  - apply checkInputs_isSpent in Hpre as [Honly Hall]. split; [by eapply Hall | exact Honly].
Qed.

Lemma checkTransactionInputs_no_rollback_witness :
  checkTransactionInputs (exampleEnv exampleStore) halfFoundTx 200 exampleStore =
    (Err (RuleError (MissingInput 1011%N 555%N)),
     <[1007%N := mkEntry priorTx 50 [false; true]]> exampleStore) /\
  isSpent (<[1007%N := mkEntry priorTx 50 [false; true]]> exampleStore)
          {| Hash := 1007%N; Index := 1%N |}.
Proof.
  destruct (checkTransactionInputs_no_rollback (exampleEnv exampleStore) halfFoundTx 200
              exampleStore (<[1007%N := mkEntry priorTx 50 [false; true]]> exampleStore)
              (<[1007%N := mkEntry priorTx 50 [false; true]]> exampleStore)
              1011%N [mkIn 1007%N 1 []] [] (mkIn 555%N 0 []) 2000
              (RuleError (MissingInput 1011%N 555%N))
              eq_refl eq_refl eq_refl eq_refl eq_refl) as (Hrun & Hmarked & _).
  split; [exact Hrun |]. apply Hmarked. apply list_elem_of_here.
Defined.

(** ** No inflation *)

Lemma feeOf_extends (s s' : Store) msgTx fee :
  store_extends s s' -> feeOf s' msgTx fee -> feeOf s msgTx fee.
Proof.
  intros Hext. unfold feeOf, inputValues. destruct (isCoinBase msgTx); [done |].
  intros (values & Hvalues & ->). exists values. split; [| done].
  eapply Forall2_impl; [exact Hvalues |]. intros txIn v Hv.
  by rewrite <- (inputValue_extends s s' txIn Hext).
Qed.

Lemma blockFees_feeOf E transactions txHeight (s : Store) fees :
  Forall (fun msgTx => checkTransactionSanity msgTx = Ok tt) transactions ->
  blockFees E transactions txHeight s = Some fees ->
  Forall2 (feeOf s) transactions fees.
Proof.
  revert s fees. induction transactions as [| msgTx rest IH]; intros s fees Hsane.
  - simpl. intros [= <-]. constructor.
  - apply Forall_cons in Hsane as [Hhead Hsane]. cbn [blockFees].
    destruct (checkTransactionInputs E msgTx txHeight s) as [[fee | e |] s1] eqn:Hrun; try done.
    destruct (blockFees E rest txHeight s1) as [fees' |] eqn:Hrest; [| done].
    intros [= <-]. constructor.
    + unfold feeOf. destruct (isCoinBase msgTx) eqn:Hcb.
      * unfold checkTransactionInputs in Hrun. rewrite Hcb in Hrun. by injection Hrun as <- _.
      * apply checkTransactionInputs_Ok in Hrun as (txHash & t & _ & Hloop & Hle & ->);
          [| done].
        apply checkInputs_values in Hloop as (values & Hvalues & _ & -> & Hin);
          [| rewrite maxSatoshi_value; lia].
        apply checkTransactionSanity_amounts in Hhead as [total Hamounts].
        apply sumOutputs_checked in Hamounts as [Hsum Hout].
        rewrite Hsum in *. rewrite maxSatoshi_value in *.
        rewrite wrap64_id by lia. exists values. split; [exact Hvalues | lia].
    + apply checkTransactionInputs_extends in Hrun.
      eapply Forall2_impl; [by apply IH |]. intros msgTx' fee'. by apply feeOf_extends.
Qed.

(** X15.  No inflation: when every transaction of a block has passed
    [checkTransactionSanity] and the checks of [checkConnectBlock] accept the
    block, the coinbase pays at most the subsidy of the height plus the
    fees, where the fee of each other transaction is the sum of the values
    of the outputs it spends, as the store holds them, less the sum of its
    own output values, and is not negative. *)
Theorem connectWithStore_no_inflation (E : Env) (node : blockNode) (block : Block)
    (coinbaseTx : MsgTx) (others : list MsgTx) (s s' : Store) (cs : list call) :
  Transactions block = coinbaseTx :: others ->
  Forall (fun msgTx => checkTransactionSanity msgTx = Ok tt) (Transactions block) ->
  connectWithStore E node block s = (Ok tt, s', cs) ->
  exists fees,
    Forall2 (feeOf s) (Transactions block) fees /\
    Forall (fun fee => 0 <= fee) fees /\
    outputTotal (tx_TxOut coinbaseTx) <= calcBlockSubsidy (height node) + Zsum fees.
Proof.
  intros Htxs Hsane Hrun.
  apply connectWithStore_accepts in Hrun as (totalFees & Hfees & Hcap).
  apply checkConnectFees_total in Hfees as (fees & Hlist & Hpos & -> & Hrange); [| lia].
  exists fees. split; [by eapply blockFees_feeOf |]. split; [done |].
  rewrite Htxs in Hcap, Hsane. apply Forall_cons in Hsane as [Hcoinbase _].
  by apply (checkCoinbaseCap_sane coinbaseTx others (height node) (0 + Zsum fees)) in Hcap.
Qed.

Lemma connectWithStore_no_inflation_witness :
  exists fees,
    Forall2 (feeOf exampleStore) (Transactions (capBlock 2500000100)) fees /\
    Forall (fun fee => 0 <= fee) fees /\
    2500000100 <= calcBlockSubsidy (height capNode) + Zsum fees.
Proof.
  apply (connectWithStore_no_inflation (exampleEnv exampleStore) capNode
           (capBlock 2500000100) (mkCoinbase [x01; x01] [mkOut 2500000100]) [spendA]
           exampleStore (<[1007%N := mkEntry priorTx 50 [true; false]]> exampleStore)
           [CallCheckBlockScripts (capBlock 2500000100)] eq_refl).
  - repeat constructor.
  - reflexivity.
Defined.

(** ** After checkBlockSanity *)

(** X16.  In a block that passed [checkBlockSanity], the transaction at
    index 0 is a coinbase and no other is: the flag [i == 0] that
    [checkConnectBlock] hands to [countP2SHSigOps] in place of a full coinbase
    check is the value of [isCoinBase], and the count is the one the full
    check would give. *)
Theorem checkBlockSanity_coinbase_flag (E : Env) (block : Block) (i : nat) (msgTx : MsgTx) :
  checkBlockSanity E block = Ok tt ->
  Transactions block !! i = Some msgTx ->
  isCoinBase msgTx = (i =? 0)%nat /\
  forall s : Store,
    countP2SHSigOps E msgTx (i =? 0)%nat s = countP2SHSigOps E msgTx (isCoinBase msgTx) s.
Proof.
  intros Hsane Hi.
  assert (Hflag : isCoinBase msgTx = (i =? 0)%nat).
  { apply checkBlockSanity_sound in Hsane
      as (coinbaseTx & others & ? & ? & _ & _ & _ & _ & Htxs & Hcb & Hothers & _).
    rewrite Htxs in Hi. destruct i as [| j]; simpl in Hi.
    - by injection Hi as <-.
    - rewrite Forall_forall in Hothers. apply Hothers. by eapply list_elem_of_lookup_2. }
  split; [exact Hflag |]. intros s. by rewrite Hflag.
Qed.

Lemma checkBlockSanity_coinbase_flag_witness :
  checkBlockSanity (exampleEnv exampleStore) (capBlock 2500000100) = Ok tt /\
  isCoinBase spendA = (1 =? 0)%nat.
Proof.
  assert (Hsane : checkBlockSanity (exampleEnv exampleStore) (capBlock 2500000100) = Ok tt)
    by (vm_compute; reflexivity).
  split; [exact Hsane |].
  exact (proj1 (checkBlockSanity_coinbase_flag (exampleEnv exampleStore)
                  (capBlock 2500000100) 1 spendA Hsane eq_refl)).
Defined.

(** X17.  For a block that passed [checkBlockSanity] and that the checks of
    [checkConnectBlock] accept, the first transaction is a coinbase with fee
    0 and what it pays is at most the subsidy of the height plus the fees of
    the other transactions, each the values it spends less the values it
    pays. *)
Theorem sane_block_no_inflation (E : Env) (node : blockNode) (block : Block)
    (s s' : Store) (cs : list call) :
  checkBlockSanity E block = Ok tt ->
  connectWithStore E node block s = (Ok tt, s', cs) ->
  exists coinbaseTx others fees,
    Transactions block = coinbaseTx :: others /\
    isCoinBase coinbaseTx = true /\
    Forall2 (feeOf s) others fees /\
    Forall (fun fee => 0 <= fee) fees /\
    outputTotal (tx_TxOut coinbaseTx) <= calcBlockSubsidy (height node) + Zsum fees.
Proof.
  intros Hsane Hrun.
  apply checkBlockSanity_sound in Hsane
    as (coinbaseTx & others & ? & ? & _ & _ & _ & _ & Htxs & Hcb & _ & Hall & _).
  apply connectWithStore_accepts in Hrun as (totalFees & Hfees & Hcap).
  apply checkConnectFees_total in Hfees as (fees & Hlist & Hpos & -> & Hrange); [| lia].
  pose proof (blockFees_feeOf _ _ _ _ _ Hall Hlist) as Hfee.
  rewrite Htxs in Hfee, Hcap, Hall.
  apply Forall_cons in Hall as [Hcoinbase _].
  inversion Hfee as [| ? fee0 ? fees' Hfee0 Hrest]; subst.
  unfold feeOf in Hfee0. rewrite Hcb in Hfee0. subst fee0.
  apply Forall_cons in Hpos as [_ Hpos].
  exists coinbaseTx, others, fees'. repeat split; try done.
  apply (checkCoinbaseCap_sane coinbaseTx others (height node) (0 + Zsum (0 :: fees')))
    in Hcap; [| done | done].
  simpl in Hcap. lia.
Qed.

Lemma sane_block_no_inflation_witness :
  exists coinbaseTx others fees,
    Transactions (capBlock 2500000100) = coinbaseTx :: others /\
    isCoinBase coinbaseTx = true /\
    Forall2 (feeOf exampleStore) others fees /\
    Forall (fun fee => 0 <= fee) fees /\
    outputTotal (tx_TxOut coinbaseTx) <= calcBlockSubsidy (height capNode) + Zsum fees.
Proof.
  apply (sane_block_no_inflation (exampleEnv exampleStore) capNode (capBlock 2500000100)
           exampleStore (<[1007%N := mkEntry priorTx 50 [true; false]]> exampleStore)
           [CallCheckBlockScripts (capBlock 2500000100)]).
  - vm_compute. reflexivity.
  - reflexivity.
Defined.
